(** * sourced-ce: the [web] command ([cmd/sourced/cmd/web.go])

    A shallow embedding of the readiness / monitoring code behind
    [sourced web]: the status-line pattern [stateExtractor], the per-service
    monitor [runMonitorService], the address pipeline ([checkFailFast],
    [waitForContainer], [openUI]) and the orchestrator [OpenUI].

    Go strings are byte strings: they are modelled by [string], whose
    characters are the 256 values of [ascii]. *)

From Stdlib Require Import String Ascii List ZArith Lia Bool Arith.
Import ListNotations.
Open Scope string_scope.
Open Scope nat_scope.

(** ** Byte strings *)

Module GoString.

Definition byte (n : nat) : ascii := ascii_of_nat n.

Definition bytes (l : list nat) : string :=
  fold_right (fun n s => String (byte n) s) EmptyString l.

Fixpoint rev_string (s : string) : string :=
  match s with
  | EmptyString => EmptyString
  | String a s' => rev_string s' ++ String a EmptyString
  end.

(** [strings.HasPrefix(s, p)]. *)
Definition HasPrefix (s p : string) : bool := String.prefix p s.

(** [strings.Contains(s, sub)]. *)
Fixpoint Contains (s sub : string) : bool :=
  String.prefix sub s ||
  match s with
  | EmptyString => false
  | String _ s' => Contains s' sub
  end.

(** The slice expression [s[lo:hi]]; [None] is the run-time panic
    "slice bounds out of range". *)
Definition slice (s : string) (lo hi : nat) : option string :=
  if (lo <=? hi) && (hi <=? String.length s)
  then Some (String.substring lo (hi - lo) s)
  else None.

(** [unicode.IsSpace] on the UTF-8 encodings of the white space runes:
    the six ASCII ones, U+0085 and U+00A0 (two bytes), U+1680,
    U+2000..U+200A, U+2028, U+2029, U+202F, U+205F and U+3000 (three
    bytes). *)
Definition isSpace1 (a : ascii) : bool :=
  let n := nat_of_ascii a in
  ((9 <=? n) && (n <=? 13)) || (n =? 32).

Definition isSpace2 (a b : ascii) : bool :=
  let m := nat_of_ascii a in
  let n := nat_of_ascii b in
  (m =? 194) && ((n =? 133) || (n =? 160)).

Definition isSpace3 (a b c : ascii) : bool :=
  let l := nat_of_ascii a in
  let m := nat_of_ascii b in
  let n := nat_of_ascii c in
  ((l =? 225) && (m =? 154) && (n =? 128)) ||
  ((l =? 226) && (m =? 128) &&
     (((128 <=? n) && (n <=? 138)) || (n =? 168) || (n =? 169) || (n =? 175))) ||
  ((l =? 226) && (m =? 129) && (n =? 159)) ||
  ((l =? 227) && (m =? 128) && (n =? 128)).

(** [strings.TrimLeftFunc(s, unicode.IsSpace)]: a byte that does not start
    the encoding of a white space rune stops the scan. *)
Fixpoint TrimLeftSpace (s : string) : string :=
  match s with
  | EmptyString => s
  | String a s1 =>
      if isSpace1 a then TrimLeftSpace s1
      else
        match s1 with
        | EmptyString => s
        | String b s2 =>
            if isSpace2 a b then TrimLeftSpace s2
            else
              match s2 with
              | EmptyString => s
              | String c s3 =>
                  if isSpace3 a b c then TrimLeftSpace s3 else s
              end
        end
  end.

(** The same scan over the reversed string, for
    [strings.TrimRightFunc(s, unicode.IsSpace)]: the bytes of a rune come
    last byte first. *)
Fixpoint TrimLeftSpaceRev (s : string) : string :=
  match s with
  | EmptyString => s
  | String a s1 =>
      if isSpace1 a then TrimLeftSpaceRev s1
      else
        match s1 with
        | EmptyString => s
        | String b s2 =>
            if isSpace2 b a then TrimLeftSpaceRev s2
            else
              match s2 with
              | EmptyString => s
              | String c s3 =>
                  if isSpace3 c b a then TrimLeftSpaceRev s3 else s
              end
        end
  end.

Definition TrimRightSpace (s : string) : string :=
  rev_string (TrimLeftSpaceRev (rev_string s)).

(** [strings.TrimSpace]. *)
Definition TrimSpace (s : string) : string :=
  TrimRightSpace (TrimLeftSpace s).

(** [strings.Replace(s, old, new, n)] for a non-empty [old] and [n >= 0]:
    the first [n] non-overlapping occurrences of [old], from the left, are
    replaced.  [skip] counts the bytes of the occurrence being dropped. *)
Fixpoint replaceFrom (old new : string) (n skip : nat) (s : string) : string :=
  match s with
  | EmptyString => EmptyString
  | String a s' =>
      match skip with
      | S k => replaceFrom old new n k s'
      | O =>
          match n with
          | O => s
          | S n' =>
              if String.prefix old s
              then new ++ replaceFrom old new n' (String.length old - 1) s'
              else String a (replaceFrom old new n O s')
          end
      end
  end.

Definition Replace (s old new : string) (n : nat) : string :=
  if String.eqb old new then s else replaceFrom old new n 0 s.

End GoString.
Import GoString.

(** ** Regular expressions, leftmost-first

    Go's [regexp] finds the match a backtracking matcher reaches first.
    [run r prev s] lists every way [r] matches a prefix of [s], most
    preferred first: the text matched, the groups captured and the rest of
    the input.  [prev] is the byte before the current position, which the
    multi-line [^] inspects.  Repetition is over a character class, which is
    all the pattern of this file uses. *)

Module Regexp.

Inductive regex : Type :=
| Eps
| Lit (c : ascii)
| Class (p : ascii -> bool)
| Bol
| Cat (r1 r2 : regex)
| Alt (r1 r2 : regex)
| Star (p : ascii -> bool)
| Group (i : nat) (r : regex).

Definition captures := list (nat * string).

Definition path : Type := string * captures * string.

Fixpoint str (s : string) : regex :=
  match s with
  | EmptyString => Eps
  | String a s' => Cat (Lit a) (str s')
  end.

(** [x+], greedy. *)
Definition Plus (p : ascii -> bool) : regex := Cat (Class p) (Star p).

Fixpoint last_byte (prev : option ascii) (t : string) : option ascii :=
  match t with
  | EmptyString => prev
  | String a t' => last_byte (Some a) t'
  end.

Definition newline : ascii := byte 10.

Definition at_bol (prev : option ascii) : bool :=
  match prev with
  | None => true
  | Some a => Ascii.eqb a newline
  end.

(** Greedy [x*]: the longest run first, then the shorter ones. *)
Fixpoint star (p : ascii -> bool) (s : string) : list (string * string) :=
  match s with
  | EmptyString => [(EmptyString, s)]
  | String a s' =>
      if p a
      then (map (fun ts => (String a (fst ts), snd ts)) (star p s')
              ++ [(EmptyString, s)])%list
      else [(EmptyString, s)]
  end.

Fixpoint run (r : regex) (prev : option ascii) (s : string) : list path :=
  match r with
  | Eps => [(EmptyString, [], s)]
  | Lit c =>
      match s with
      | String a s' =>
          if Ascii.eqb a c then [(String a EmptyString, [], s')] else []
      | EmptyString => []
      end
  | Class p =>
      match s with
      | String a s' => if p a then [(String a EmptyString, [], s')] else []
      | EmptyString => []
      end
  | Bol => if at_bol prev then [(EmptyString, [], s)] else []
  | Cat r1 r2 =>
      flat_map
        (fun p1 : path =>
           let '(t1, c1, s1) := p1 in
           map (fun p2 : path =>
                  let '(t2, c2, s2) := p2 in (t1 ++ t2, (c1 ++ c2)%list, s2))
               (run r2 (last_byte prev t1) s1))
        (run r1 prev s)
  | Alt r1 r2 => (run r1 prev s ++ run r2 prev s)%list
  | Star p => map (fun ts => (fst ts, [], snd ts)) (star p s)
  | Group i r1 =>
      map (fun p1 : path =>
             let '(t, c, s') := p1 in (t, (i, t) :: c, s'))
          (run r1 prev s)
  end.

(** The match at the current position, if any. *)
Definition exec (r : regex) (prev : option ascii) (s : string)
  : option (string * captures) :=
  match run r prev s with
  | [] => None
  | (t, c, _) :: _ => Some (t, c)
  end.

(** Text of group [i]; a group that took no part in the match is the empty
    string, as in [FindStringSubmatch]. *)
Fixpoint group (i : nat) (c : captures) : string :=
  match c with
  | [] => EmptyString
  | (j, t) :: c' => if Nat.eqb i j then t else group i c'
  end.

Definition submatch (ngroups : nat) (t : string) (c : captures) : list string :=
  t :: map (fun i => group i c) (seq 1 ngroups).

(** The scan of [FindAllStringSubmatch(s, -1)]: successive non-overlapping
    matches, each searched from the end of the previous one.  [skip] is the
    number of bytes of the last match still to step over.  (After an empty
    match Go moves one byte forward; the pattern below never matches the
    empty text.) *)
Fixpoint scan (r : regex) (ngroups skip : nat) (prev : option ascii)
  (s : string) : list (list string) :=
  match skip with
  | S k =>
      match s with
      | String a s' => scan r ngroups k (Some a) s'
      | EmptyString => []
      end
  | O =>
      match exec r prev s with
      | Some (t, c) =>
          submatch ngroups t c ::
            match s with
            | String a s' => scan r ngroups (String.length t - 1) (Some a) s'
            | EmptyString => []
            end
      | None =>
          match s with
          | String a s' => scan r ngroups 0 (Some a) s'
          | EmptyString => []
          end
      end
  end.

Definition FindAllStringSubmatch (r : regex) (ngroups : nat) (s : string)
  : list (list string) :=
  scan r ngroups 0 None s.

(** Character classes. *)
Definition between (lo hi : nat) (a : ascii) : bool :=
  let n := nat_of_ascii a in (lo <=? n) && (n <=? hi).

Definition isDigit (a : ascii) : bool := between 48 57 a.

(** [\w] is [[0-9A-Za-z_]]. *)
Definition isWord (a : ascii) : bool :=
  isDigit a || between 65 90 a || between 97 122 a || (nat_of_ascii a =? 95).

(** [.] without the [s] flag: any byte but the newline. *)
Definition isDot (a : ascii) : bool := negb (Ascii.eqb a newline).

End Regexp.
Import Regexp.

(** ** The status-line pattern *)

(** [regexp.MustCompile(`(?m)^srcd-[\w\d]+.*(Up|Exit (\w+))`)]. *)
Definition stateExtractor : regex :=
  Cat Bol
    (Cat (str "srcd-")
       (Cat (Plus (fun a => isWord a || isDigit a))
          (Cat (Star isDot)
             (Group 1
                (Alt (str "Up")
                   (Cat (str "Exit ") (Group 2 (Plus isWord)))))))).

Definition stateExtractor_groups : nat := 2.

Definition FindAllStates (s : string) : list (list string) :=
  FindAllStringSubmatch stateExtractor stateExtractor_groups s.

(** ** Errors

    [compose.RunWithIO] lives in another package of the tool; the spec
    treats it as the external CommandRunner. *)

Module Errors.

(** Modelled from the spec: the CommandRunner classifies a failure as
    "malformed working directory", "missing directory", "invalid directory"
    or anything else; these are the kinds [workdir.ErrMalformed],
    [dir.ErrNotExist] and [dir.ErrNotValid] that [checkFailFast] tests. *)
Inductive errKind : Type :=
| KindMalformed
| KindNotExist
| KindNotValid
| KindOther.

Definition errKind_eqb (k1 k2 : errKind) : bool :=
  match k1, k2 with
  | KindMalformed, KindMalformed => true
  | KindNotExist, KindNotExist => true
  | KindNotValid, KindNotValid => true
  | KindOther, KindOther => true
  | _, _ => false
  end.

(** A non-nil [error]: what the runner returned, the result of
    [fmt.Errorf], or [errors.Wrap(cause, msg)]. *)
Inductive error : Type :=
| CmdError (k : errKind) (msg : string)
| Errorf (msg : string)
| Wrap (cause : error) (msg : string).

(** The [Error()] method. *)
Fixpoint Error (e : error) : string :=
  match e with
  | CmdError _ msg => msg
  | Errorf msg => msg
  | Wrap cause msg => msg ++ ": " ++ Error cause
  end.

(** [kind.Is(err)]; false on [nil]. *)
Definition Is (k : errKind) (err : option error) : bool :=
  match err with
  | Some (CmdError k' _) => errKind_eqb k k'
  | _ => false
  end.

End Errors.
Import Errors.

(** Modelled from the spec: one call of the CommandRunner,
    [Run(stdin, args...) -> (stdoutText, error)]: the bytes it appends to
    the [stdout] buffer it was given, and its error ([None] is [nil]). *)
Record cmdResult : Type := mkResult {
  written : string;
  failure : option error
}.

(** ** [time.Duration] and its [%v] form *)

Module Duration.

Local Open Scope Z_scope.

Definition Nanosecond : Z := 1.
Definition Microsecond : Z := 1000 * Nanosecond.
Definition Millisecond : Z := 1000 * Microsecond.
Definition Second : Z := 1000 * Millisecond.

Definition digit (d : Z) : ascii := ascii_of_nat (48 + Z.to_nat d)%nat.

(** [fmtFrac(buf, v, prec)]: the fraction of [v / 10^prec] is written in
    front of [buf], without trailing zeros; returns the new text and
    [v / 10^prec]. *)
Fixpoint fmtFrac (prec : nat) (print : bool) (buf : string) (v : Z)
  : string * Z :=
  match prec with
  | O => (if print then String "." buf else buf, v)
  | S prec' =>
      let d := v mod 10 in
      let print' := print || negb (d =? 0) in
      fmtFrac prec' print' (if print' then String (digit d) buf else buf)
        (v / 10)
  end.

Fixpoint fmtIntLoop (fuel : nat) (buf : string) (v : Z) : string :=
  match fuel with
  | O => buf
  | S fuel' =>
      if 0 <? v
      then fmtIntLoop fuel' (String (digit (v mod 10)) buf) (v / 10)
      else buf
  end.

(** [fmtInt(buf, v)]; a [uint64] has at most twenty digits. *)
Definition fmtInt (buf : string) (v : Z) : string :=
  if v =? 0 then String "0" buf else fmtIntLoop 20 buf v.

(** [Duration.String], which [%v] prints. *)
Definition String (d : Z) : string :=
  let u := Z.abs d in
  let body :=
    if u <? Second then
      if u =? 0 then "0s"%string
      else if u <? Microsecond then
        let '(b, v) := fmtFrac 0 false "ns" u in fmtInt b v
      else if u <? Millisecond then
        let '(b, v) := fmtFrac 3 false (bytes [194%nat; 181%nat] ++ "s") u in
        fmtInt b v
      else
        let '(b, v) := fmtFrac 6 false "ms" u in fmtInt b v
    else
      let '(b, v) := fmtFrac 9 false "s" u in
      let b := fmtInt b (v mod 60) in
      let v := v / 60 in
      if 0 <? v then
        let b := fmtInt (String.String "m" b) (v mod 60) in
        let v := v / 60 in
        if 0 <? v then fmtInt (String.String "h" b) v else b
      else b
  in
  if d <? 0 then String.String "-" body else body.

End Duration.

(** ** Effects *)

(** The service name used in docker-compose.yml for the sourced-ui image. *)
Definition containerName : string := "sourced-ui".

(** The statements with an effect outside the goroutine that runs them, in
    program order. *)
Inductive event : Type :=
| EvRun (args : list string)        (* compose.RunWithIO(..., args...) *)
| EvSleep (d : Z)                   (* time.Sleep(d) *)
| EvSend (e : option error)         (* ch <- e *)
| EvMakeChan (capacity : nat)       (* make(chan error[, capacity]) *)
| EvGoMonitors                      (* runMonitor(ch) *)
| EvGoService (service : string)    (* go runMonitorService(service, ch) *)
| EvGoPipeline (containerReady : bool) (stdout : string)
| EvPrintln (s : string)
| EvSpinnerStart (msg : string)
| EvSpinnerStop
| EvGet (url : string)              (* client.Get(url) *)
| EvOpenURL (url : string).         (* browser.OpenURL(url) *)

(** How far a goroutine got on the answers the environment gave it. *)
Inductive status : Type :=
| Returned      (* the function returned *)
| Panicked      (* a run-time panic *)
| Polling.      (* still in its loop: the answers ran out *)

(** ** The service monitor *)

Definition portArgs : list string := ["port"; containerName; "8088"].

(** [a != b] on strings. *)
Definition neqb (a b : string) : bool := negb (String.eqb a b).

(** The body of [for _, match := range matches]. *)
Inductive rangeResult : Type :=
| RangeDone                 (* every match passed *)
| RangeReturn (e : error)   (* [ch <- e; return] *)
| RangePanic.

Fixpoint checkMatches (service : string) (matches : list (list string))
  : rangeResult :=
  match matches with
  | [] => RangeDone
  | mtch :: rest =>
      match nth_error mtch 1 with
      | None => RangePanic
      | Some state =>
          if HasPrefix state "Exit" then
            if neqb service "ghsync" && neqb service "gitcollector" then
              RangeReturn
                (Errorf ("service '" ++ service ++ "' is in state '"
                           ++ state ++ "'"))
            else
              match slice state (String.length "Exit ") (String.length state) with
              | None => RangePanic
              | Some returnCode =>
                  if neqb returnCode "0" then
                    RangeReturn
                      (Errorf ("service '" ++ service
                                 ++ "' exited with return code: " ++ returnCode))
                  else checkMatches service rest
              end
          else if neqb state "Up" then
            RangeReturn
              (Errorf ("service '" ++ service ++ "' is in state '"
                         ++ state ++ "'"))
          else checkMatches service rest
      end
  end.

(** [runMonitorService(service, ch)] on the successive answers of
    [docker-compose ps service]; each turn of the loop has a fresh buffer. *)
Fixpoint runMonitorService (service : string) (answers : list cmdResult)
  : list event * status :=
  match answers with
  | [] => ([], Polling)
  | r :: answers' =>
      match failure r with
      | Some err =>
          ([EvRun ["ps"; service];
            EvSend (Some (Wrap err ("cannot get status service " ++ service)))],
           Returned)
      | None =>
          match checkMatches service (FindAllStates (TrimSpace (written r))) with
          | RangeReturn e => ([EvRun ["ps"; service]; EvSend (Some e)], Returned)
          | RangePanic => ([EvRun ["ps"; service]], Panicked)
          | RangeDone =>
              let '(evs, st) := runMonitorService service answers' in
              (EvRun ["ps"; service] :: EvSleep Duration.Second :: evs, st)
          end
      end
  end.

(** [strings.Split(s, sep)] for a one-byte separator. *)
Fixpoint splitOn (sep : ascii) (cur : string) (s : string) : list string :=
  match s with
  | EmptyString => [rev_string cur]
  | String a s' =>
      if Ascii.eqb a sep then rev_string cur :: splitOn sep EmptyString s'
      else splitOn sep (String a cur) s'
  end.

(** The goroutine started by [runMonitor(ch)]. *)
Definition runMonitor (services : cmdResult) : list event * status :=
  match failure services with
  | Some err =>
      ([EvRun ["config"; "--services"];
        EvSend (Some (Wrap err "cannot get list of services"))], Returned)
  | None =>
      (EvRun ["config"; "--services"] ::
         map EvGoService
           (splitOn newline EmptyString (TrimSpace (written services))),
       Returned)
  end.

(** ** Address discovery and the readiness pipeline *)

(** [checkFailFast(stdout)]: the buffer after the call, the fail-fast flag
    and the error. *)
Definition checkFailFast (stdout : string) (r : cmdResult)
  : string * bool * option error :=
  let err := failure r in
  let stdout' := stdout ++ written r in
  if Is KindMalformed err || Is KindNotExist err || Is KindNotValid err
  then (stdout', true, err)
  else
    match err with
    | Some e => (stdout', false, Some e)
    | None => (stdout', false, None)
    end.

(** [waitForContainer(stdout)] on the successive answers of
    [docker-compose port sourced-ui 8088]: every call appends to the same
    buffer.  [Some] is the buffer at the [break], with the answers left. *)
Fixpoint waitForContainer (stdout : string) (answers : list cmdResult)
  : list event * option (string * list cmdResult) :=
  match answers with
  | [] => ([], None)
  | r :: answers' =>
      let stdout' := stdout ++ written r in
      match failure r with
      | None => ([EvRun portArgs], Some (stdout', answers'))
      | Some _ =>
          let '(evs, res) := waitForContainer stdout' answers' in
          (EvRun portArgs :: EvSleep Duration.Second :: evs, res)
      end
  end.

(** The URL of [openUI(address)]. *)
Definition probeURL (address : string) : string :=
  "http://" ++ Replace address "0.0.0.0" "127.0.0.1" 1.

(** The probe loop of [openUI]: [true] is a [Get] without error. *)
Fixpoint probe (url : string) (gets : list bool) : list event * bool :=
  match gets with
  | [] => ([], false)
  | ok :: gets' =>
      if ok then ([EvGet url], true)
      else
        let '(evs, reached) := probe url gets' in
        (EvGet url :: EvSleep Duration.Second :: evs, reached)
  end.

(** [openUI(address)]; [None] while the probe loop has not ended, else the
    error returned ([Some None] is [nil]). *)
Definition openUI (address : string) (gets : list bool)
  (browser : option error) : list event * option (option error) :=
  let url := probeURL address in
  let '(evs, reached) := probe url gets in
  if reached then
    ((evs ++ [EvOpenURL url])%list,
     Some match browser with
          | Some err => Some (Wrap err "could not open the browser")
          | None => None
          end)
  else (evs, None).

Definition addressNotFound : error :=
  Errorf ("could not find the public port of " ++ containerName).

(** The goroutine [go func() { if !containerReady { waitForContainer } ... }]
    of [OpenUI], started on the buffer [stdout] that the pre-check wrote to. *)
Definition pipeline (containerReady : bool) (stdout : string)
  (ports : list cmdResult) (gets : list bool) (browser : option error)
  : list event * status :=
  let '(evs1, waited) :=
    if containerReady then ([], Some (stdout, ports))
    else waitForContainer stdout ports in
  match waited with
  | None => (evs1, Polling)
  | Some (stdout', _) =>
      let address := TrimSpace stdout' in
      if String.eqb address "" then
        ((evs1 ++ [EvSend (Some addressNotFound)])%list, Returned)
      else
        match openUI address gets browser with
        | (evs2, None) => ((evs1 ++ evs2)%list, Polling)
        | (evs2, Some err) => ((evs1 ++ evs2 ++ [EvSend err])%list, Returned)
        end
  end.

(** ** The orchestrator *)

Definition nl : string := String newline EmptyString.

Definition banner : string :=
  nl ++ "Once source{d} is fully initialized, the UI will be available, by default at:"
     ++ nl ++ "  http://127.0.0.1:8088"
     ++ nl ++ "  user:admin"
     ++ nl ++ "  pass:admin"
     ++ nl ++ String (byte 9) EmptyString.

(** Which case of the final [select] fires. *)
Inductive selected : Type :=
| Received (e : option error)   (* case err := <-ch *)
| TimedOut.                     (* case <-time.After(timeout) *)

Definition timeoutError (timeout : Z) : error :=
  Errorf ("error opening the UI, the container is not running after "
            ++ Duration.String timeout).

(** Capacity of [make(chan error)]. *)
Definition chanCapacity : nat := 0.

(** [OpenUI(timeout)], given the answer to the pre-check and the case the
    [select] takes. *)
Definition OpenUI (timeout : Z) (pre : cmdResult) (sel : selected)
  : list event * option error :=
  let '(stdout, failFast, err) := checkFailFast EmptyString pre in
  if failFast then ([EvRun portArgs], err)
  else
    let containerReady := match err with None => true | Some _ => false end in
    let spin := (5 * Duration.Second <? timeout)%Z in
    let result :=
      match sel with
      | Received e => e
      | TimedOut => Some (timeoutError timeout)
      end in
    (([EvRun portArgs; EvMakeChan chanCapacity; EvGoMonitors;
       EvGoPipeline containerReady stdout; EvPrintln banner]
        ++ (if spin then [EvSpinnerStart "Initializing source{d}..."] else [])
        ++ (if spin then [EvSpinnerStop] else []))%list,
     result).

(** ** The completion channel

    A channel of capacity [cap], the orchestrator in its [select]
    ([receiving]) or gone, and the goroutines stopped at a [ch <- v]
    statement, with the value each one sends. *)

Module Chan.

Record sys : Type := mkSys {
  queue : list (option error);
  receiving : bool;
  senders : list (option error)
}.

Inductive step (cap : nat) : sys -> sys -> Prop :=
| step_handoff : forall l1 v l2,
    (* a sender meets the receiver waiting on an empty channel *)
    step cap (mkSys [] true (l1 ++ v :: l2)) (mkSys [] false (l1 ++ l2))
| step_enqueue : forall q r l1 v l2,
    (* room in the buffer *)
    List.length q < cap ->
    step cap (mkSys q r (l1 ++ v :: l2)) (mkSys (q ++ [v]) r (l1 ++ l2))
| step_dequeue : forall v q l,
    step cap (mkSys (v :: q) true l) (mkSys q false l)
| step_timeout : forall q l,
    step cap (mkSys q true l) (mkSys q false l)
| step_arrive : forall q r l v,
    (* one more goroutine reaches its send *)
    step cap (mkSys q r l) (mkSys q r (v :: l)).

Inductive steps (cap : nat) : sys -> sys -> Prop :=
| steps_refl : forall s, steps cap s s
| steps_step : forall s1 s2 s3, step cap s1 s2 -> steps cap s2 s3 -> steps cap s1 s3.

End Chan.

(** ** Vocabulary of the statements *)

(** Every byte of [s] satisfies [p]. *)
Fixpoint allb (p : ascii -> bool) (s : string) : bool :=
  match s with
  | EmptyString => true
  | String a s' => p a && allb p s'
  end.

(** [sub] occurs in [s]. *)
Definition occursIn (sub s : string) : Prop :=
  exists pre post, s = pre ++ sub ++ post.

(** The services that may exit: the guard of [runMonitorService] is
    [service != "ghsync" && service != "gitcollector"]. *)
Definition allowListed (service : string) : bool :=
  negb (neqb service "ghsync" && neqb service "gitcollector").

(** [Exit ] followed by a non-empty word. *)
Definition exitState (state code : string) : Prop :=
  state = "Exit " ++ code /\ code <> EmptyString /\ allb isWord code = true.

(** What a submatch of [stateExtractor] looks like: the whole match, the
    state and the exit code (empty for [Up]). *)
Definition matchShape (m : list string) : Prop :=
  exists t state code,
    m = [t; state; code] /\
    ((state = "Up" /\ code = EmptyString) \/ exitState state code).

(** The state of a submatch, [match[1]]. *)
Definition stateOf (m : list string) : option string := nth_error m 1.

(** A matched line that lets the monitor go on. *)
Definition quiet (m : list string) : Prop :=
  stateOf m = Some "Up" \/ stateOf m = Some "Exit 0".

(** The events of [n] failed polls of the port query. *)
Fixpoint failedPolls (n : nat) : list event :=
  match n with
  | O => []
  | S n' => EvRun portArgs :: EvSleep Duration.Second :: failedPolls n'
  end.

(** Everything a list of answers wrote, in order. *)
Fixpoint outputs (answers : list cmdResult) : string :=
  match answers with
  | [] => EmptyString
  | r :: answers' => written r ++ outputs answers'
  end.

Definition failed (r : cmdResult) : Prop := failure r <> None.

(** The pre-check ended in one of the three environment kinds. *)
Definition environmentError (err : option error) : bool :=
  Is KindMalformed err || Is KindNotExist err || Is KindNotValid err.

(** ** The command *)

(** [webCmd.Execute(args)]: [OpenUI(2 * time.Second)], whatever the
    arguments. *)
Definition Execute (pre : cmdResult) (sel : selected)
  : list event * option error :=
  OpenUI (2 * Duration.Second) pre sel.

(** ** The progress indicator *)

Module Spinner.

(** The conversion [string(r)] of an integer to the UTF-8 encoding of that
    code point; what is not a valid code point becomes U+FFFD. *)
Definition encodeRune (r : Z) : string :=
  let b (z : Z) : ascii := ascii_of_nat (Z.to_nat z) in
  (if (r <? 0) || (1114111 <? r) || ((55296 <=? r) && (r <=? 57343))
   then bytes [239%nat; 191%nat; 189%nat]
   else if r <? 128 then String (b r) EmptyString
   else if r <? 2048 then
     String (b (192 + r / 64)) (String (b (128 + r mod 64)) EmptyString)
   else if r <? 65536 then
     String (b (224 + r / 4096))
       (String (b (128 + (r / 64) mod 64))
          (String (b (128 + r mod 64)) EmptyString))
   else
     String (b (240 + r / 262144))
       (String (b (128 + (r / 4096) mod 64))
          (String (b (128 + (r / 64) mod 64))
             (String (b (128 + r mod 64)) EmptyString))))%Z.

(** [type spinner struct]; the [stop] channel is the list of answers given
    to [printLoop]. *)
Record spinner : Type := mkSpinner {
  msg : string;
  charset : list Z;
  interval : Z
}.

(** The value built by [startSpinner(msg)]; [windows] is
    [runtime.GOOS == "windows"]. *)
Definition startSpinner (windows : bool) (m : string) : spinner :=
  mkSpinner m
    (if windows then [124; 47; 45; 92]%Z
     else [10251; 10265; 10297; 10296; 10300; 10292; 10278; 10279; 10247;
           10255]%Z)
    (200 * Duration.Millisecond)%Z.

Inductive output : Type :=
| Printf (text : string)      (* fmt.Printf, already formatted *)
| Println (text : string)     (* fmt.Println(text) *)
| Sleep (d : Z).              (* time.Sleep(d) *)

(** The text of one frame. *)
Definition frame (windows : bool) (m : string) (r : Z) : string :=
  if windows
  then String (byte 13) EmptyString ++ m ++ " " ++ encodeRune r
  else m ++ " " ++ encodeRune r ++ String (byte 10) EmptyString
         ++ String (byte 27) EmptyString ++ "[A".

(** [s.printLoop()] from the index [i]; each element of [stops] tells
    whether the [select] of that turn finds a value on [s.stop].  Indexing
    with [i % len(s.charset)] panics on an empty [charset]. *)
Fixpoint printLoop (windows : bool) (s : spinner) (i : nat) (stops : list bool)
  : list output * status :=
  match stops with
  | [] => ([], Polling)
  | true :: _ => ([Println (msg s)], Returned)
  | false :: stops' =>
      match List.length (charset s) with
      | O => ([], Panicked)
      | S _ =>
          match nth_error (charset s) (i mod List.length (charset s)) with
          | None => ([], Panicked)
          | Some r =>
              let i1 := i + 1 in
              let i2 := if List.length (charset s) =? i1 then 0 else i1 in
              let '(out, st) := printLoop windows s i2 stops' in
              (Printf (frame windows (msg s) r) :: Sleep (interval s) :: out, st)
          end
      end
  end.

End Spinner.

(** ** Vocabulary of the further properties *)

(** The events of [n] turns of the monitor that end in the sleep. *)
Fixpoint quietTurns (service : string) (n : nat) : list event :=
  match n with
  | O => []
  | S n' =>
      EvRun ["ps"; service] :: EvSleep Duration.Second :: quietTurns service n'
  end.

(** The events of [n] probes without answer. *)
Fixpoint failedProbes (url : string) (n : nat) : list event :=
  match n with
  | O => []
  | S n' => EvGet url :: EvSleep Duration.Second :: failedProbes url n'
  end.

(** A matched line after which the monitor of [service] goes on. *)
Definition passes (service : string) (m : list string) : Prop :=
  stateOf m = Some "Up" \/
  (allowListed service = true /\ stateOf m = Some "Exit 0").

Definition isSend (ev : event) : bool :=
  match ev with
  | EvSend _ => true
  | _ => false
  end.

(** How many sends on the channel a trace has. *)
Definition sends (evs : list event) : nat := List.length (filter isSend evs).

Definition isRun (ev : event) : bool :=
  match ev with
  | EvRun _ => true
  | _ => false
  end.

Definition isSpinnerStart (ev : event) : bool :=
  match ev with
  | EvSpinnerStart _ => true
  | _ => false
  end.

Definition isSpinnerStop (ev : event) : bool :=
  match ev with
  | EvSpinnerStop => true
  | _ => false
  end.

(** The text begins with a byte of the class [p]. *)
Definition startsWith (p : ascii -> bool) (s : string) : bool :=
  match s with
  | EmptyString => false
  | String a _ => p a
  end.

(** The text begins with one of the two keywords of the pattern: [Up], or
    [Exit ] and a word character. *)
Definition keywordAt (s : string) : Prop :=
  (exists rest, s = "Up" ++ rest) \/
  (exists a rest, s = "Exit " ++ String a rest /\ isWord a = true).

(** A byte other than the letter [o]. *)
Definition noO (a : ascii) : bool := negb (Ascii.eqb a "o").

(** A byte other than the digit [0]. *)
Definition noZero (a : ascii) : bool := negb (Ascii.eqb a "0").

(** * Properties *)

(** ** Strings *)

Section StringFacts.

Lemma append_assoc (a b c : string) : (a ++ b) ++ c = a ++ (b ++ c).
Proof.
  induction a as [|x a IH]; simpl; [reflexivity | now rewrite IH].
Qed.

Lemma append_nil_r (a : string) : a ++ "" = a.
Proof.
  induction a as [|x a IH]; simpl; [reflexivity | now rewrite IH].
Qed.

Lemma length_append (a b : string) :
  String.length (a ++ b) = String.length a + String.length b.
Proof.
  induction a as [|x a IH]; simpl; [reflexivity | now rewrite IH].
Qed.

Lemma prefix_append (a b : string) : String.prefix a (a ++ b) = true.
Proof.
  induction a as [|x a IH]; simpl.
  - now destruct b.
  - destruct (ascii_dec x x) as [_|n]; [exact IH | now elim n].
Qed.

Lemma substring_all (s : string) : String.substring 0 (String.length s) s = s.
Proof.
  induction s as [|x s IH]; simpl; [reflexivity | now rewrite IH].
Qed.

Lemma allb_ext (p q : ascii -> bool) (s : string) :
  (forall a, p a = q a) -> allb p s = allb q s.
Proof.
  intros E. induction s as [|x s IH]; simpl; [reflexivity | now rewrite E, IH].
Qed.

Lemma occursIn_Contains (sub s : string) :
  occursIn sub s -> Contains s sub = true.
Proof.
  intros (pre & post & ->).
  induction pre as [|x pre IH]; simpl.
  - assert (P : String.prefix sub (sub ++ post) = true) by apply prefix_append.
    revert P. destruct (sub ++ post); simpl; intros ->; reflexivity.
  - simpl in IH. rewrite IH. apply orb_true_r.
Qed.

End StringFacts.

(** ** The matcher *)

Section RunFacts.

Variables (prev : option ascii) (s : string).

Lemma star_nil (p : ascii -> bool) (u : string) : In (EmptyString, u) (star p u).
Proof.
  destruct u as [|a u]; simpl; [now left|].
  destruct (p a); [apply in_or_app; right|]; now left.
Qed.

Lemma star_sound (p : ascii -> bool) (u t u' : string) :
  In (t, u') (star p u) -> u = t ++ u' /\ allb p t = true.
Proof.
  revert t; induction u as [|a u IH]; simpl; intros t H.
  - destruct H as [H|[]]; inversion H; now split.
  - destruct (p a) eqn:Pa.
    + apply in_app_or in H. destruct H as [H|[H|[]]].
      * apply in_map_iff in H. destruct H as ([t0 u0] & E & H).
        simpl in E. inversion E; subst.
        destruct (IH _ H) as [-> A]. simpl. now rewrite Pa, A.
      * inversion H; now split.
    + destruct H as [H|[]]; inversion H; now split.
Qed.

Lemma star_complete (p : ascii -> bool) (t u' : string) :
  allb p t = true -> In (t, u') (star p (t ++ u')).
Proof.
  induction t as [|a t IH]; simpl; intros A.
  - apply star_nil.
  - apply andb_true_iff in A. destruct A as [Pa A]. rewrite Pa.
    apply in_or_app; left. apply in_map_iff.
    exists (t, u'); split; [reflexivity | now apply IH].
Qed.

Lemma run_Cat_in (r1 r2 : regex) (t : string) (c : captures) (s' : string) :
  In (t, c, s') (run (Cat r1 r2) prev s) <->
  exists t1 c1 s1 t2 c2,
    In (t1, c1, s1) (run r1 prev s) /\
    In (t2, c2, s') (run r2 (last_byte prev t1) s1) /\
    t = t1 ++ t2 /\ c = (c1 ++ c2)%list.
Proof.
  simpl. rewrite in_flat_map. split.
  - intros ([[t1 c1] s1] & H1 & H2).
    apply in_map_iff in H2. destruct H2 as ([[t2 c2] s2] & E & H2).
    inversion E; subst. exists t1, c1, s1, t2, c2. now repeat split.
  - intros (t1 & c1 & s1 & t2 & c2 & H1 & H2 & -> & ->).
    exists (t1, c1, s1). split; [exact H1|].
    apply in_map_iff. exists (t2, c2, s'). now split.
Qed.

Lemma run_Lit_in (a : ascii) (t : string) (c : captures) (s' : string) :
  In (t, c, s') (run (Lit a) prev s) <->
  s = String a s' /\ t = String a EmptyString /\ c = [].
Proof.
  simpl. destruct s as [|b u].
  - split; [intros [] | intros (E & _); discriminate].
  - destruct (Ascii.eqb_spec b a) as [->|N]; simpl.
    + split.
      * intros [H|[]]. inversion H; now subst.
      * intros (E & -> & ->). inversion E; now left.
    + split; [intros [] | intros (E & _); inversion E; now elim N].
Qed.

Lemma run_Class_in (p : ascii -> bool) (t : string) (c : captures) (s' : string) :
  In (t, c, s') (run (Class p) prev s) <->
  exists a, s = String a s' /\ p a = true /\ t = String a EmptyString /\ c = [].
Proof.
  simpl. destruct s as [|b u].
  - split; [intros [] | intros (a & E & _); discriminate].
  - destruct (p b) eqn:Pb; simpl.
    + split.
      * intros [H|[]]. inversion H; subst. now exists b.
      * intros (a & E & _ & -> & ->). inversion E; now left.
    + split; [intros [] |].
      intros (a & E & Pa & _). inversion E; subst. congruence.
Qed.

Lemma run_Star_in (p : ascii -> bool) (t : string) (c : captures) (s' : string) :
  In (t, c, s') (run (Star p) prev s) <->
  c = [] /\ s = t ++ s' /\ allb p t = true.
Proof.
  simpl. rewrite in_map_iff. split.
  - intros ([t0 u0] & E & H). simpl in E. inversion E; subst.
    split; [reflexivity | now apply star_sound].
  - intros (-> & -> & A). exists (t, s'). split; [reflexivity|].
    now apply star_complete.
Qed.

Lemma run_Alt_in (r1 r2 : regex) (x : path) :
  In x (run (Alt r1 r2) prev s) <-> In x (run r1 prev s) \/ In x (run r2 prev s).
Proof. simpl. apply in_app_iff. Qed.

Lemma run_Group_in (i : nat) (r : regex) (t : string) (c : captures) (s' : string) :
  In (t, c, s') (run (Group i r) prev s) <->
  exists c0, c = (i, t) :: c0 /\ In (t, c0, s') (run r prev s).
Proof.
  simpl. rewrite in_map_iff. split.
  - intros ([[t0 c0] u0] & E & H). inversion E; subst. now exists c0.
  - intros (c0 & -> & H). now exists (t, c0, s').
Qed.

Lemma run_Bol_in (t : string) (c : captures) (s' : string) :
  In (t, c, s') (run Bol prev s) <->
  at_bol prev = true /\ t = EmptyString /\ c = [] /\ s' = s.
Proof.
  simpl. destruct (at_bol prev).
  - split.
    + intros [H|[]]. inversion H; now subst.
    + intros (_ & -> & -> & ->). now left.
  - split; [intros [] | intros (E & _); discriminate].
Qed.

End RunFacts.

Lemma run_Plus_in (prev : option ascii) (s : string) (p : ascii -> bool)
  (t : string) (c : captures) (s' : string) :
  In (t, c, s') (run (Plus p) prev s) <->
  c = [] /\ s = t ++ s' /\ t <> EmptyString /\ allb p t = true.
Proof.
  unfold Plus. rewrite run_Cat_in. split.
  - intros (t1 & c1 & s1 & t2 & c2 & H1 & H2 & -> & ->).
    apply run_Class_in in H1. destruct H1 as (a & -> & Pa & -> & ->).
    apply run_Star_in in H2. destruct H2 as (-> & -> & A).
    simpl. rewrite Pa, A. repeat split. discriminate.
  - intros (-> & -> & N & A). destruct t as [|a t]; [now elim N|].
    simpl in A. apply andb_true_iff in A. destruct A as [Pa A].
    exists (String a EmptyString), [], (t ++ s'), t, []. repeat split.
    + apply run_Class_in. now exists a.
    + apply run_Star_in. now repeat split.
Qed.

Lemma run_str_in (w : string) (prev : option ascii) (s t : string)
  (c : captures) (s' : string) :
  In (t, c, s') (run (str w) prev s) <-> s = w ++ s' /\ t = w /\ c = [].
Proof.
  revert prev s t c. induction w as [|a w IH]; intros prev s t c.
  - simpl. split.
    + intros [H|[]]. inversion H; now subst.
    + intros (-> & -> & ->). now left.
  - change (str (String a w)) with (Cat (Lit a) (str w)).
    rewrite run_Cat_in. split.
    + intros (t1 & c1 & s1 & t2 & c2 & H1 & H2 & -> & ->).
      apply run_Lit_in in H1. destruct H1 as (-> & -> & ->).
      apply IH in H2. destruct H2 as (-> & -> & ->). now repeat split.
    + intros (-> & -> & ->).
      exists (String a EmptyString), [], (w ++ s'), w, []. repeat split.
      * now apply run_Lit_in.
      * now apply IH.
Qed.

Lemma exec_Some_in (r : regex) (prev : option ascii) (s t : string) (c : captures) :
  exec r prev s = Some (t, c) -> exists s', In (t, c, s') (run r prev s).
Proof.
  unfold exec. destruct (run r prev s) as [|[[t0 c0] s0] l]; [discriminate|].
  intros E. inversion E; subst. exists s0. now left.
Qed.

Lemma in_exec_Some (r : regex) (prev : option ascii) (s : string) (x : path) :
  In x (run r prev s) -> exists t c, exec r prev s = Some (t, c).
Proof.
  unfold exec. destruct (run r prev s) as [|[[t0 c0] s0] l]; [intros []|].
  intros _. now exists t0, c0.
Qed.

(** ** The pattern *)

Lemma isWord_or_isDigit (a : ascii) : isWord a || isDigit a = isWord a.
Proof.
  unfold isWord. destruct (isDigit a); simpl.
  - reflexivity.
  - apply orb_false_r.
Qed.

(** Every way the pattern matches at a position, and nothing else. *)
Lemma stateExtractor_in (prev : option ascii) (s t : string) (c : captures)
  (s' : string) :
  In (t, c, s') (run stateExtractor prev s) <->
  at_bol prev = true /\ s = t ++ s' /\
  exists name mid state code,
    t = "srcd-" ++ name ++ mid ++ state /\
    name <> EmptyString /\ allb isWord name = true /\ allb isDot mid = true /\
    ((state = "Up" /\ code = EmptyString /\ c = [(1, state)]) \/
     (exitState state code /\ c = [(1, state); (2, code)])).
Proof.
  unfold stateExtractor. split.
  - intros H.
    apply run_Cat_in in H.
    destruct H as (ta & ca & sa & ta' & ca' & H1 & H & -> & ->).
    apply run_Bol_in in H1. destruct H1 as (B & -> & -> & ->).
    apply run_Cat_in in H.
    destruct H as (tb & cb & sb & tb' & cb' & H1 & H & -> & ->).
    apply run_str_in in H1. destruct H1 as (-> & -> & ->).
    apply run_Cat_in in H.
    destruct H as (name & cc & sc & tc' & cc' & H1 & H & -> & ->).
    apply run_Plus_in in H1. destruct H1 as (-> & -> & Nn & An).
    apply run_Cat_in in H.
    destruct H as (mid & cd & sd & state & cd' & H1 & H & -> & ->).
    apply run_Star_in in H1. destruct H1 as (-> & -> & Am).
    apply run_Group_in in H. destruct H as (c0 & -> & H).
    rewrite (allb_ext _ isWord _ isWord_or_isDigit) in An.
    split; [exact B|].
    apply run_Alt_in in H. destruct H as [H|H].
    + apply run_str_in in H. destruct H as (-> & -> & ->).
      split.
      * simpl. rewrite !append_assoc. reflexivity.
      * exists name, mid, "Up"%string, EmptyString. simpl.
        repeat split; try assumption. left. now repeat split.
    + apply run_Cat_in in H.
      destruct H as (te & ce & se & code & ce' & H1 & H & -> & ->).
      apply run_str_in in H1. destruct H1 as (-> & -> & ->).
      apply run_Group_in in H. destruct H as (cf & -> & H).
      apply run_Plus_in in H. destruct H as (-> & -> & Nc & Ac).
      split.
      * simpl. rewrite !append_assoc. reflexivity.
      * exists name, mid, ("Exit " ++ code), code. simpl.
        repeat split; try assumption. right. now repeat split.
  - intros (B & -> & name & mid & state & code & -> & Nn & An & Am & H).
    apply run_Cat_in.
    exists EmptyString, [], (("srcd-" ++ name ++ mid ++ state) ++ s'),
      ("srcd-" ++ name ++ mid ++ state), c.
    split; [now apply run_Bol_in|]. split; [|now split].
    apply run_Cat_in.
    exists "srcd-"%string, [], ((name ++ mid ++ state) ++ s'),
      (name ++ mid ++ state), c.
    split; [now apply run_str_in|]. split; [|now split].
    apply run_Cat_in.
    exists name, [], ((mid ++ state) ++ s'), (mid ++ state), c.
    split.
    { apply run_Plus_in. repeat split; try assumption.
      - now rewrite !append_assoc.
      - now rewrite (allb_ext _ isWord _ isWord_or_isDigit). }
    split; [|now split].
    apply run_Cat_in.
    exists mid, [], (state ++ s'), state, c.
    split.
    { apply run_Star_in. repeat split; try assumption.
      now rewrite !append_assoc. }
    split; [|now split].
    destruct H as [(-> & -> & ->)|((-> & Nc & Ac) & ->)].
    + apply run_Group_in. exists []. split; [reflexivity|].
      apply run_Alt_in. left. now apply run_str_in.
    + apply run_Group_in. exists [(2, code)]. split; [reflexivity|].
      apply run_Alt_in. right. apply run_Cat_in.
      exists "Exit "%string, [], (code ++ s'), code, [(2, code)].
      split; [now apply run_str_in|]. split; [|now split].
      apply run_Group_in. exists []. split; [reflexivity|].
      apply run_Plus_in. now repeat split.
Qed.

(** The submatch built from a match of the pattern. *)
Lemma exec_matchShape (prev : option ascii) (s t : string) (c : captures) :
  exec stateExtractor prev s = Some (t, c) ->
  matchShape (submatch stateExtractor_groups t c).
Proof.
  intros E. apply exec_Some_in in E. destruct E as (s' & H).
  apply stateExtractor_in in H.
  destruct H as (_ & _ & name & mid & state & code & _ & _ & _ & _ & H).
  exists t, state, code.
  destruct H as [(-> & -> & ->)|(X & ->)].
  - split; [reflexivity|]. left. now split.
  - split; [reflexivity|]. right. exact X.
Qed.

Lemma scan_matchShape (s : string) (skip : nat) (prev : option ascii) :
  Forall matchShape (scan stateExtractor stateExtractor_groups skip prev s).
Proof.
  revert skip prev. induction s as [|a s IH]; intros skip prev.
  - destruct skip; simpl; [|constructor].
    destruct (exec stateExtractor prev "") as [[t c]|] eqn:E; [|constructor].
    constructor; [now apply (exec_matchShape prev "")|constructor].
  - destruct skip; simpl; [|apply IH].
    destruct (exec stateExtractor prev (String a s)) as [[t c]|] eqn:E.
    + constructor; [now apply (exec_matchShape prev (String a s))|apply IH].
    + apply IH.
Qed.

Lemma FindAllStates_matchShape (s : string) : Forall matchShape (FindAllStates s).
Proof. apply scan_matchShape. Qed.

(** A match of the pattern is never empty, so the scan always moves on by
    the length of the match. *)
Lemma stateExtractor_nonempty (prev : option ascii) (s t : string) (c : captures) :
  exec stateExtractor prev s = Some (t, c) -> t <> EmptyString.
Proof.
  intros E. apply exec_Some_in in E. destruct E as (s' & H).
  apply stateExtractor_in in H.
  destruct H as (_ & _ & name & mid & state & code & -> & _).
  discriminate.
Qed.

(** The table quoted in the comment of [runMonitor], where docker-compose
    wraps a long container name onto a second line. *)
Example wrapped_name_table :
  FindAllStates
    (TrimSpace
       ("Name                                                       Command                       State                                     Ports"
          ++ nl ++
        "------------------------------------------------------------------------------------------------------------------------------------------------------------------------------------------------------------"
          ++ nl ++
        "srcd-l1vzzxjzl3nln2vudhlzztdlbi9qcm9qzwn0cy8uz28td29ya3nwywnll3nyyy9naxrodwiuy29tl3nln   /bin/bblfsh-web -addr :808 ...   Up                      0.0.0.0:9999->8080/tcp"
          ++ nl ++
        "2vudhlzztdlbg_bblfsh-web_1" ++ nl))
  = [["srcd-l1vzzxjzl3nln2vudhlzztdlbi9qcm9qzwn0cy8uz28td29ya3nwywnll3nyyy9naxrodwiuy29tl3nln   /bin/bblfsh-web -addr :808 ...   Up";
      "Up"; ""]].
Proof. vm_compute. reflexivity. Qed.

Example greedy_takes_last_state :
  FindAllStates ("srcd-x_ghsync_1   Exit 1   Up" ++ nl ++ "srcd-x_ghsync_2   Up Exit 0")
  = [["srcd-x_ghsync_1   Exit 1   Up"; "Up"; ""];
     ["srcd-x_ghsync_2   Up Exit 0"; "Exit 0"; "0"]].
Proof. vm_compute. reflexivity. Qed.

(** ** The monitor's check of the matches *)

Lemma slice_exit (code : string) :
  slice ("Exit " ++ code) (String.length "Exit ") (String.length ("Exit " ++ code))
  = Some code.
Proof.
  unfold slice. simpl. rewrite Nat.leb_refl. simpl.
  now rewrite Nat.sub_0_r, substring_all.
Qed.

Lemma neqb_true (a b : string) : neqb a b = true <-> a <> b.
Proof.
  unfold neqb. rewrite negb_true_iff. apply String.eqb_neq.
Qed.

Lemma neqb_false (a b : string) : neqb a b = false <-> a = b.
Proof.
  unfold neqb. rewrite negb_false_iff. apply String.eqb_eq.
Qed.

Lemma checkMatches_up (service : string) (m : list string) (rest : list (list string)) :
  stateOf m = Some "Up" ->
  checkMatches service (m :: rest) = checkMatches service rest.
Proof.
  unfold stateOf. intros E. cbn [checkMatches]. rewrite E. reflexivity.
Qed.

Lemma checkMatches_exit (service : string) (m : list string)
  (rest : list (list string)) (code : string) :
  stateOf m = Some ("Exit " ++ code) ->
  checkMatches service (m :: rest) =
  if allowListed service then
    if neqb code "0" then
      RangeReturn
        (Errorf ("service '" ++ service ++ "' exited with return code: " ++ code))
    else checkMatches service rest
  else
    RangeReturn
      (Errorf ("service '" ++ service ++ "' is in state '"
                 ++ ("Exit " ++ code) ++ "'")).
Proof.
  unfold stateOf, allowListed. intros E. cbn [checkMatches]. rewrite E.
  replace (HasPrefix ("Exit " ++ code) "Exit") with true by reflexivity.
  destruct (neqb service "ghsync" && neqb service "gitcollector");
    cbn [negb]; [reflexivity|].
  now rewrite slice_exit.
Qed.

Lemma matchShape_state (m : list string) :
  matchShape m ->
  stateOf m = Some "Up" \/ exists code, stateOf m = Some ("Exit " ++ code).
Proof.
  intros (t & state & code & -> & [(-> & _)|(-> & _)]).
  - now left.
  - right. now exists code.
Qed.

Lemma exit_code_inj (c1 c2 : string) : "Exit " ++ c1 = "Exit " ++ c2 -> c1 = c2.
Proof. intros E. now inversion E. Qed.

Lemma checkMatches_no_panic (service : string) (ms : list (list string)) :
  Forall matchShape ms -> checkMatches service ms <> RangePanic.
Proof.
  induction 1 as [|m ms Hm _ IH]; [discriminate|].
  destruct (matchShape_state m Hm) as [U|(code & X)].
  - now rewrite (checkMatches_up _ _ _ U).
  - rewrite (checkMatches_exit _ _ _ _ X).
    destruct (allowListed service); [|discriminate].
    destruct (neqb code "0"); [discriminate|exact IH].
Qed.

Lemma checkMatches_quiet (service : string) (ms : list (list string)) :
  allowListed service = true -> Forall quiet ms ->
  checkMatches service ms = RangeDone.
Proof.
  intros A. induction 1 as [|m ms Hm _ IH]; [reflexivity|].
  destruct Hm as [U|X].
  - now rewrite (checkMatches_up _ _ _ U).
  - rewrite (checkMatches_exit service m ms "0" X), A. exact IH.
Qed.

(** The first match that is an exit the service is not allowed ends the
    range loop with an error. *)
Lemma checkMatches_terminal (service : string) (before : list (list string))
  (m : list string) (after : list (list string)) (code : string) :
  Forall matchShape before ->
  stateOf m = Some ("Exit " ++ code) ->
  allowListed service = false \/ code <> "0" ->
  exists e,
    checkMatches service (before ++ m :: after) = RangeReturn e /\
    (allowListed service = true ->
     exists code',
       e = Errorf ("service '" ++ service ++ "' exited with return code: " ++ code') /\
       code' <> "0" /\
       (exists m', In m' (before ++ [m]) /\ stateOf m' = Some ("Exit " ++ code')) /\
       (Forall quiet before -> code' = code)).
Proof.
  intros Sh X C. induction Sh as [|m0 before Hm0 _ IH].
  - cbn [app]. rewrite (checkMatches_exit _ _ _ _ X).
    destruct (allowListed service) eqn:A.
    + destruct C as [C|C]; [discriminate|].
      apply neqb_true in C. rewrite C.
      eexists; split; [reflexivity|]. intros _. exists code.
      split; [reflexivity|]. split; [now apply neqb_true|].
      split; [|reflexivity]. exists m. split; [now left|exact X].
    + eexists; split; [reflexivity|]. discriminate.
  - cbn [app]. destruct (matchShape_state m0 Hm0) as [U|(c0 & X0)].
    + rewrite (checkMatches_up _ _ _ U).
      destruct IH as (e & E & P). exists e. split; [exact E|].
      intros A. destruct (P A) as (code' & He & N & (m' & I & S') & Q).
      exists code'. repeat split; try assumption.
      * exists m'. split; [now right|exact S'].
      * intros F. apply Q. now inversion F.
    + rewrite (checkMatches_exit _ _ _ _ X0).
      destruct (allowListed service) eqn:A.
      * destruct (neqb c0 "0") eqn:N0.
        -- eexists; split; [reflexivity|]. intros _. exists c0.
           split; [reflexivity|]. split; [now apply neqb_true|].
           split; [exists m0; split; [now left|exact X0]|].
           intros F. inversion F as [|? ? [U|Z] _]; subst.
           ++ rewrite X0 in U. discriminate.
           ++ rewrite X0 in Z. inversion Z; subst. discriminate.
        -- destruct IH as (e & E & P). exists e. split; [exact E|].
           intros _. destruct (P eq_refl) as (code' & He & N & (m' & I & S') & Q).
           exists code'. repeat split; try assumption.
           ++ exists m'. split; [now right|exact S'].
           ++ intros F. apply Q. now inversion F.
      * eexists; split; [reflexivity|]. discriminate.
Qed.

Lemma Forall_app_l {A : Type} (P : A -> Prop) (l1 l2 : list A) :
  Forall P (l1 ++ l2) -> Forall P l1.
Proof.
  induction l1 as [|x l1 IH]; intros F; [constructor|].
  inversion F; subst. constructor; auto.
Qed.

(** ** Claims about the monitor *)

(** For an allow-listed service, the range loop stops at the first matched
    line that is an exit with a code other than [0], and reports that
    line's code. *)
Lemma checkMatches_first_exit (service : string) (before : list (list string))
  (m : list string) (after : list (list string)) (code : string) :
  allowListed service = true ->
  Forall matchShape before ->
  stateOf m = Some ("Exit " ++ code) ->
  code <> "0" ->
  exists l1 m' l2 code',
    (before ++ m :: after)%list = (l1 ++ m' :: l2)%list /\
    Forall quiet l1 /\
    stateOf m' = Some ("Exit " ++ code') /\
    code' <> "0" /\
    In m' (before ++ [m]) /\
    (Forall quiet before -> code' = code) /\
    checkMatches service (before ++ m :: after)
    = RangeReturn
        (Errorf ("service '" ++ service ++ "' exited with return code: " ++ code')).
Proof.
  intros A Sh X C. induction Sh as [|m0 before Hm0 _ IH].
  - exists [], m, after, code. cbn [app].
    rewrite (checkMatches_exit _ _ _ _ X), A.
    pose proof C as C'. apply neqb_true in C'. rewrite C'.
    split; [reflexivity|]. split; [constructor|]. split; [exact X|].
    split; [exact C|]. split; [now left|]. split; reflexivity.
  - destruct IH as (l1 & m' & l2 & code' & E & Q & S' & N & I & F & R).
    destruct (matchShape_state m0 Hm0) as [U|(c0 & X0)].
    + exists (m0 :: l1), m', l2, code'. cbn [app].
      split; [now rewrite E|]. split; [constructor; [now left|exact Q]|].
      split; [exact S'|]. split; [exact N|]. split; [now right|].
      split; [intros G; apply F; now inversion G|].
      now rewrite (checkMatches_up _ _ _ U).
    + destruct (neqb c0 "0") eqn:N0.
      * exists [], m0, (before ++ m :: after)%list, c0. cbn [app].
        split; [reflexivity|]. split; [constructor|]. split; [exact X0|].
        split; [now apply neqb_true|]. split; [now left|].
        split.
        { intros G. inversion G as [|? ? [U|Z] _]; subst.
          - rewrite X0 in U. discriminate.
          - rewrite X0 in Z. inversion Z; subst. discriminate. }
        now rewrite (checkMatches_exit _ _ _ _ X0), A, N0.
      * apply neqb_false in N0. subst c0.
        exists (m0 :: l1), m', l2, code'. cbn [app].
        split; [now rewrite E|]. split; [constructor; [now right|exact Q]|].
        split; [exact S'|]. split; [exact N|]. split; [now right|].
        split; [intros G; apply F; now inversion G|].
        rewrite (checkMatches_exit _ _ _ _ X0), A. exact R.
Qed.

(** C1 (as the code has it). When the polled status output has a matched
    line in state [Exit <code>] and the service is not allow-listed (any
    code), or it is allow-listed and the code is not [0], this turn of the
    monitor performs the query, sends exactly one error on the channel and
    returns, whatever answers would follow.  For an allow-listed service
    the message is [service '<name>' exited with return code: <code'>],
    where [code'] is the exit code of the first matched line whose code is
    not [0]: every matched line before that one is [Up] or [Exit 0].  The
    message therefore contains the service name and that line's code; it is
    the code of the line at hand when no earlier matched line stops the
    monitor. *)
Theorem exit_state_sends_terminal_error :
  forall (service : string) (r : cmdResult) (answers : list cmdResult)
         (before : list (list string)) (mtch : list string)
         (after : list (list string)) (code : string),
    failure r = None ->
    FindAllStates (TrimSpace (written r)) = (before ++ mtch :: after)%list ->
    stateOf mtch = Some ("Exit " ++ code) ->
    allowListed service = false \/ code <> "0" ->
    exists e,
      runMonitorService service (r :: answers)
      = ([EvRun ["ps"; service]; EvSend (Some e)], Returned) /\
      (allowListed service = true ->
       exists l1 m' l2 code',
         FindAllStates (TrimSpace (written r)) = (l1 ++ m' :: l2)%list /\
         Forall quiet l1 /\
         stateOf m' = Some ("Exit " ++ code') /\
         code' <> "0" /\
         In m' (before ++ [mtch]) /\
         Error e = "service '" ++ service ++ "' exited with return code: " ++ code' /\
         occursIn service (Error e) /\
         occursIn code' (Error e) /\
         (Forall quiet before -> code' = code)).
Proof.
  intros service r answers before mtch after code Ok Ms X C.
  assert (Sh : Forall matchShape before).
  { apply Forall_app_l with (l2 := mtch :: after). rewrite <- Ms.
    apply FindAllStates_matchShape. }
  destruct (allowListed service) eqn:A.
  - destruct C as [C|C]; [discriminate|].
    destruct (checkMatches_first_exit service before mtch after code A Sh X C)
      as (l1 & m' & l2 & code' & E & Q & S' & N & I & F & R).
    eexists. split.
    + cbn [runMonitorService]. rewrite Ok, Ms, R. reflexivity.
    + intros _. exists l1, m', l2, code'. cbn [Error].
      split; [now rewrite Ms|]. split; [exact Q|]. split; [exact S'|].
      split; [exact N|]. split; [exact I|]. split; [reflexivity|].
      split; [|split; [|exact F]].
      * exists "service '"%string, ("' exited with return code: " ++ code').
        reflexivity.
      * exists ("service '" ++ service ++ "' exited with return code: "), EmptyString.
        now rewrite append_nil_r, !append_assoc.
  - destruct (checkMatches_terminal service before mtch after code Sh X
                (or_introl A))
      as (e & E & _).
    exists e. split.
    + cbn [runMonitorService]. rewrite Ok, Ms, E. reflexivity.
    + intros A'. discriminate A'.
Qed.

Lemma exit_state_sends_terminal_error_witness :
  exists e,
    runMonitorService "gitcollector"
      (mkResult ("srcd-x_gitcollector_1   /bin/gitcollector   Exit 2" ++ nl) None
         :: [mkResult ("srcd-x_gitcollector_1   /bin/gitcollector   Up" ++ nl) None])
    = ([EvRun ["ps"; "gitcollector"]; EvSend (Some e)], Returned) /\
    (allowListed "gitcollector" = true ->
     exists l1 m' l2 code',
       FindAllStates
         (TrimSpace
            (written
               (mkResult ("srcd-x_gitcollector_1   /bin/gitcollector   Exit 2" ++ nl)
                  None)))
       = (l1 ++ m' :: l2)%list /\
       Forall quiet l1 /\
       stateOf m' = Some ("Exit " ++ code') /\
       code' <> "0" /\
       In m' ([] ++ [["srcd-x_gitcollector_1   /bin/gitcollector   Exit 2";
                      "Exit 2"; "2"]]) /\
       Error e = "service '" ++ "gitcollector" ++ "' exited with return code: " ++ code' /\
       occursIn "gitcollector" (Error e) /\
       occursIn code' (Error e) /\
       (Forall quiet [] -> code' = "2")).
Proof.
  apply (exit_state_sends_terminal_error "gitcollector"
           (mkResult ("srcd-x_gitcollector_1   /bin/gitcollector   Exit 2" ++ nl) None)
           [mkResult ("srcd-x_gitcollector_1   /bin/gitcollector   Up" ++ nl) None]
           []
           ["srcd-x_gitcollector_1   /bin/gitcollector   Exit 2"; "Exit 2"; "2"]
           [] "2").
  - reflexivity.
  - vm_compute. reflexivity.
  - reflexivity.
  - right. discriminate.
Defined.

(** C1, as stated, fails: for gitcollector, when the status output has a
    line in state [Exit 3] and then a line in state [Exit 2], the second
    line is a matched line with a code other than [0], but the range loop
    returns at the first line: the one error sent reports the return code
    [3], and the code [2] does not occur in its message. *)
Lemma later_exit_code_is_not_reported :
  allowListed "gitcollector" = true /\
  FindAllStates
    (TrimSpace
       ("srcd-x_gitcollector_1   /bin/gitcollector   Exit 3" ++ nl ++
        "srcd-x_gitcollector_2   /bin/gitcollector   Exit 2" ++ nl))
  = [["srcd-x_gitcollector_1   /bin/gitcollector   Exit 3"; "Exit 3"; "3"];
     ["srcd-x_gitcollector_2   /bin/gitcollector   Exit 2"; "Exit 2"; "2"]] /\
  runMonitorService "gitcollector"
    [mkResult
       ("srcd-x_gitcollector_1   /bin/gitcollector   Exit 3" ++ nl ++
        "srcd-x_gitcollector_2   /bin/gitcollector   Exit 2" ++ nl) None]
  = ([EvRun ["ps"; "gitcollector"];
      EvSend (Some (Errorf "service 'gitcollector' exited with return code: 3"))],
     Returned) /\
  ~ occursIn "2" "service 'gitcollector' exited with return code: 3".
Proof.
  split; [reflexivity|]. split; [vm_compute; reflexivity|].
  split; [vm_compute; reflexivity|].
  intros O. apply occursIn_Contains in O. vm_compute in O. discriminate.
Qed.

(** C2. For an allow-listed service (ghsync, gitcollector), a polled status
    output all of whose matched states are [Exit 0] (or [Up]) makes the
    monitor send nothing: the turn consists of the query and the sleep of
    one second, and the monitor goes on with the next poll. *)
Theorem exit_zero_allow_listed_continues :
  forall (service : string) (r : cmdResult) (answers : list cmdResult),
    allowListed service = true ->
    failure r = None ->
    Forall quiet (FindAllStates (TrimSpace (written r))) ->
    runMonitorService service (r :: answers)
    = (EvRun ["ps"; service] :: EvSleep Duration.Second
         :: fst (runMonitorService service answers),
       snd (runMonitorService service answers)).
Proof.
  intros service r answers A Ok Q.
  cbn [runMonitorService]. rewrite Ok, (checkMatches_quiet _ _ A Q).
  now destruct (runMonitorService service answers).
Qed.

Lemma exit_zero_allow_listed_continues_witness :
  allowListed "ghsync" = true /\
  FindAllStates (TrimSpace ("srcd-x_ghsync_1   /bin/ghsync   Exit 0" ++ nl))
  = [["srcd-x_ghsync_1   /bin/ghsync   Exit 0"; "Exit 0"; "0"]] /\
  runMonitorService "ghsync"
    [mkResult ("srcd-x_ghsync_1   /bin/ghsync   Exit 0" ++ nl) None]
  = ([EvRun ["ps"; "ghsync"]; EvSleep Duration.Second], Polling).
Proof.
  split; [reflexivity|]. split; [vm_compute; reflexivity|].
  apply (exit_zero_allow_listed_continues "ghsync"
           (mkResult ("srcd-x_ghsync_1   /bin/ghsync   Exit 0" ++ nl) None) []).
  - reflexivity.
  - reflexivity.
  - vm_compute. constructor; [right; reflexivity | constructor].
Defined.

(** C9. For every state matched by the pattern that begins with [Exit], the
    slice [state[len("Exit "):len(state)]] is within bounds: the state is
    [Exit ] followed by at least one word character, and the slice is that
    word.  The range loop of the monitor therefore never panics. *)
Theorem exit_slice_in_range :
  forall (s : string) (mtch : list string) (state : string),
    In mtch (FindAllStates s) ->
    stateOf mtch = Some state ->
    HasPrefix state "Exit" = true ->
    (exists code,
        slice state (String.length "Exit ") (String.length state) = Some code /\
        state = "Exit " ++ code /\
        code <> EmptyString /\
        allb isWord code = true) /\
    (forall service, checkMatches service (FindAllStates s) <> RangePanic).
Proof.
  intros s mtch state I S P. split.
  - pose proof (FindAllStates_matchShape s) as F.
    rewrite Forall_forall in F. specialize (F _ I).
    destruct F as (t & st & code & -> & [(-> & _)|(-> & N & A)]).
    + inversion S; subst. discriminate.
    + inversion S; subst. exists code. split; [apply slice_exit|]. now repeat split.
  - intros service. apply checkMatches_no_panic, FindAllStates_matchShape.
Qed.

Lemma exit_slice_in_range_witness :
  (exists code,
      slice "Exit 137" (String.length "Exit ") (String.length "Exit 137")
      = Some code /\
      "Exit 137" = "Exit " ++ code /\
      code <> EmptyString /\
      allb isWord code = true) /\
  (forall service,
      checkMatches service (FindAllStates "srcd-x_bblfshd_1   bblfshd   Exit 137")
      <> RangePanic).
Proof.
  apply (exit_slice_in_range "srcd-x_bblfshd_1   bblfshd   Exit 137"
           ["srcd-x_bblfshd_1   bblfshd   Exit 137"; "Exit 137"; "137"]
           "Exit 137").
  - vm_compute. left. reflexivity.
  - reflexivity.
  - reflexivity.
Defined.

(** C6 (as the code has it). At the start of a line the pattern matches
    exactly the lines made of [srcd-], a non-empty name of word characters,
    any text without a newline, and then either [Up] or [Exit ] followed by
    a non-empty word (letters, digits, underscore: not only digits); the
    captured state is that [Up] or [Exit <word>]. *)
Theorem status_line_pattern :
  forall (prev : option ascii) (line : string),
    ((exists t c, exec stateExtractor prev line = Some (t, c)) <->
     (at_bol prev = true /\
      exists name mid state code rest,
        line = "srcd-" ++ name ++ mid ++ state ++ rest /\
        name <> EmptyString /\ allb isWord name = true /\
        allb isDot mid = true /\
        (state = "Up" \/ exitState state code))) /\
    (forall t c,
        exec stateExtractor prev line = Some (t, c) ->
        matchShape (submatch stateExtractor_groups t c)).
Proof.
  intros prev line. split; [split|].
  - intros (t & c & E). apply exec_Some_in in E. destruct E as (s' & H).
    apply stateExtractor_in in H.
    destruct H as (B & -> & name & mid & state & code & -> & Nn & An & Am & H).
    split; [exact B|]. exists name, mid, state, code, s'.
    split; [now rewrite !append_assoc|]. repeat split; try assumption.
    destruct H as [(-> & _)|(X & _)]; [now left|now right].
  - intros (B & name & mid & state & code & rest & -> & Nn & An & Am & H).
    destruct H as [->|X].
    + apply (in_exec_Some _ _ _
               ("srcd-" ++ name ++ mid ++ "Up", [(1, "Up"%string)], rest)).
      apply stateExtractor_in. split; [exact B|].
      split; [now rewrite !append_assoc|].
      exists name, mid, "Up"%string, EmptyString. repeat split; try assumption.
      left. now repeat split.
    + apply (in_exec_Some _ _ _
               ("srcd-" ++ name ++ mid ++ state, [(1, state); (2, code)], rest)).
      apply stateExtractor_in. split; [exact B|].
      split; [now rewrite !append_assoc|].
      exists name, mid, state, code. repeat split; try assumption.
      right. now split.
  - intros t c. apply exec_matchShape.
Qed.

(** C6, as stated, fails: a line whose token after [Exit] is not numeric
    matches, and its state is an exit state for the monitor. *)
Lemma nonnumeric_exit_matches :
  allb isDigit "abc" = false /\
  FindAllStates "srcd-x_ghsync_1   /bin/ghsync   Exit abc"
  = [["srcd-x_ghsync_1   /bin/ghsync   Exit abc"; "Exit abc"; "abc"]] /\
  runMonitorService "ghsync"
    [mkResult "srcd-x_ghsync_1   /bin/ghsync   Exit abc" None]
  = ([EvRun ["ps"; "ghsync"];
      EvSend (Some (Errorf "service 'ghsync' exited with return code: abc"))],
     Returned).
Proof. repeat split; vm_compute; reflexivity. Qed.

(** ** The orchestrator and the address pipeline *)

Lemma environmentError_failure (err : option error) :
  environmentError err = true -> exists k msg, err = Some (CmdError k msg).
Proof.
  destruct err as [[k msg|msg|e msg]|]; try discriminate.
  intros _. now exists k, msg.
Qed.

Lemma checkFailFast_flag (stdout : string) (r : cmdResult) :
  checkFailFast stdout r
  = (stdout ++ written r, environmentError (failure r), failure r).
Proof.
  unfold checkFailFast, environmentError.
  destruct (Is KindMalformed (failure r) || Is KindNotExist (failure r)
            || Is KindNotValid (failure r)); [reflexivity|].
  now destruct (failure r).
Qed.

(** C3. When the pre-check port query fails with one of the environment
    kinds (malformed, missing or invalid working directory), [OpenUI]
    returns that error and its only effect is the pre-check query: no
    channel is made, no monitor and no pipeline goroutine is started. *)
Theorem fail_fast_starts_nothing :
  forall (timeout : Z) (pre : cmdResult) (sel : selected),
    environmentError (failure pre) = true ->
    OpenUI timeout pre sel = ([EvRun portArgs], failure pre) /\
    (exists k msg, snd (OpenUI timeout pre sel) = Some (CmdError k msg)) /\
    (forall ev, In ev (fst (OpenUI timeout pre sel)) -> ev = EvRun portArgs).
Proof.
  intros timeout pre sel H.
  assert (E : OpenUI timeout pre sel = ([EvRun portArgs], failure pre)).
  { unfold OpenUI. now rewrite checkFailFast_flag, H. }
  rewrite E. split; [reflexivity|]. split.
  - apply environmentError_failure, H.
  - intros ev [<-|[]]. reflexivity.
Qed.

Lemma fail_fast_starts_nothing_witness :
  OpenUI (2 * Duration.Second)
    (mkResult "" (Some (CmdError KindMalformed "workdir is malformed")))
    (Received None)
  = ([EvRun portArgs], Some (CmdError KindMalformed "workdir is malformed")) /\
  (exists k msg,
      snd (OpenUI (2 * Duration.Second)
             (mkResult "" (Some (CmdError KindMalformed "workdir is malformed")))
             (Received None))
      = Some (CmdError k msg)) /\
  (forall ev,
      In ev (fst (OpenUI (2 * Duration.Second)
                    (mkResult "" (Some (CmdError KindMalformed "workdir is malformed")))
                    (Received None))) ->
      ev = EvRun portArgs).
Proof.
  apply (fail_fast_starts_nothing (2 * Duration.Second)
           (mkResult "" (Some (CmdError KindMalformed "workdir is malformed")))
           (Received None)).
  reflexivity.
Defined.

Lemma OpenUI_makes_unbuffered_channel (timeout : Z) (pre : cmdResult) (sel : selected) :
  environmentError (failure pre) = false ->
  In (EvMakeChan 0) (fst (OpenUI timeout pre sel)).
Proof.
  intros H. unfold OpenUI. rewrite checkFailFast_flag, H. cbn. auto.
Qed.

(** C4 (as the code has it). When the [select] takes the timeout case,
    [OpenUI] returns the error
    [error opening the UI, the container is not running after <timeout>]:
    the message contains the configured duration as [%v] prints it; the
    container is mentioned, not named. *)
Theorem timeout_error_message :
  forall (timeout : Z) (pre : cmdResult),
    environmentError (failure pre) = false ->
    snd (OpenUI timeout pre TimedOut) = Some (timeoutError timeout) /\
    Error (timeoutError timeout)
    = "error opening the UI, the container is not running after "
        ++ Duration.String timeout /\
    occursIn (Duration.String timeout) (Error (timeoutError timeout)).
Proof.
  intros timeout pre H. split; [|split].
  - unfold OpenUI. now rewrite checkFailFast_flag, H.
  - reflexivity.
  - exists "error opening the UI, the container is not running after "%string,
      EmptyString.
    cbn [Error timeoutError]. now rewrite append_nil_r.
Qed.

Lemma timeout_error_message_witness :
  snd (OpenUI (2 * Duration.Second)
         (mkResult "" (Some (CmdError KindOther "No container found"))) TimedOut)
  = Some (timeoutError (2 * Duration.Second)) /\
  Error (timeoutError (2 * Duration.Second))
  = "error opening the UI, the container is not running after "
      ++ Duration.String (2 * Duration.Second) /\
  occursIn (Duration.String (2 * Duration.Second))
    (Error (timeoutError (2 * Duration.Second))).
Proof.
  apply (timeout_error_message (2 * Duration.Second)
           (mkResult "" (Some (CmdError KindOther "No container found")))).
  reflexivity.
Defined.

(** C4, as stated, fails: the timeout error of [OpenUI(2 * time.Second)]
    does not contain the container name [sourced-ui]. *)
Lemma timeout_error_omits_container_name :
  snd (OpenUI (2 * Duration.Second)
         (mkResult "" (Some (CmdError KindOther "No container found"))) TimedOut)
  = Some (Errorf "error opening the UI, the container is not running after 2s") /\
  ~ occursIn containerName
      "error opening the UI, the container is not running after 2s".
Proof.
  split; [vm_compute; reflexivity|].
  intros H. apply occursIn_Contains in H. vm_compute in H. discriminate.
Qed.

(** The wait loop stops at the first answer without error, whatever it
    wrote; the buffer then holds everything written so far. *)
Lemma waitForContainer_first_success (fails : list cmdResult) :
  forall (stdout : string) (ok : cmdResult) (rest : list cmdResult),
    Forall failed fails -> failure ok = None ->
    waitForContainer stdout (fails ++ ok :: rest)
    = ((failedPolls (List.length fails) ++ [EvRun portArgs])%list,
       Some (stdout ++ outputs fails ++ written ok, rest)).
Proof.
  induction fails as [|r fails IH]; intros stdout ok rest F Ok.
  - cbn. now rewrite Ok.
  - inversion F as [|? ? Fr Ff]; subst.
    cbn [app waitForContainer].
    destruct (failure r) as [e|] eqn:Er; [|now elim Fr].
    rewrite (IH (stdout ++ written r) ok rest Ff Ok).
    cbn [List.length outputs]. rewrite !append_assoc. reflexivity.
Qed.

(** C5 (as the code has it). Address discovery polls the port query, one
    second apart, until the query succeeds, whatever it printed.  If the
    output gathered in the buffer is then empty once trimmed, the pipeline
    at once sends the error [could not find the public port of sourced-ui]
    and returns: it polls no further. *)
Theorem address_discovery_stops_at_first_success :
  forall (stdout : string) (fails : list cmdResult) (ok : cmdResult)
         (rest : list cmdResult) (gets : list bool) (browser : option error),
    Forall failed fails ->
    failure ok = None ->
    waitForContainer stdout (fails ++ ok :: rest)
    = ((failedPolls (List.length fails) ++ [EvRun portArgs])%list,
       Some (stdout ++ outputs fails ++ written ok, rest)) /\
    (TrimSpace (stdout ++ outputs fails ++ written ok) = EmptyString ->
     pipeline false stdout (fails ++ ok :: rest) gets browser
     = ((failedPolls (List.length fails)
           ++ [EvRun portArgs; EvSend (Some addressNotFound)])%list,
        Returned)).
Proof.
  intros stdout fails ok rest gets browser F Ok.
  pose proof (waitForContainer_first_success fails stdout ok rest F Ok) as W.
  split; [exact W|].
  intros T. unfold pipeline. rewrite W, T. cbn [String.eqb].
  now rewrite <- app_assoc.
Qed.

Lemma address_discovery_stops_at_first_success_witness :
  waitForContainer EmptyString
    ([mkResult "" (Some (CmdError KindOther "No container found"))]
       ++ mkResult nl None :: [mkResult "0.0.0.0:8088" None])
  = ((failedPolls 1 ++ [EvRun portArgs])%list,
     Some ("" ++ outputs [mkResult "" (Some (CmdError KindOther "No container found"))]
              ++ written (mkResult nl None),
           [mkResult "0.0.0.0:8088" None])) /\
  (TrimSpace ("" ++ outputs [mkResult "" (Some (CmdError KindOther "No container found"))]
                 ++ written (mkResult nl None)) = EmptyString ->
   pipeline false EmptyString
     ([mkResult "" (Some (CmdError KindOther "No container found"))]
        ++ mkResult nl None :: [mkResult "0.0.0.0:8088" None])
     [true] None
   = ((failedPolls 1 ++ [EvRun portArgs; EvSend (Some addressNotFound)])%list,
      Returned)).
Proof.
  apply (address_discovery_stops_at_first_success EmptyString
           [mkResult "" (Some (CmdError KindOther "No container found"))]
           (mkResult nl None) [mkResult "0.0.0.0:8088" None] [true] None).
  - constructor; [discriminate|constructor].
  - reflexivity.
Defined.

(** C5, as stated, fails: after a port query that succeeds with empty
    output the pipeline does not poll again (the next answer would have
    given the address); it sends the "could not find the public port"
    error and returns. *)
Lemma empty_address_is_an_error :
  pipeline false EmptyString
    [mkResult "" None; mkResult "0.0.0.0:8088" None] [true] None
  = ([EvRun portArgs;
      EvSend (Some (Errorf "could not find the public port of sourced-ui"))],
     Returned).
Proof. vm_compute. reflexivity. Qed.

Lemma probe_first_get (url : string) (g : bool) (gets : list bool) :
  In (EvGet url) (fst (probe url (g :: gets))).
Proof.
  cbn [probe]. destruct g; [now left|].
  destruct (probe url gets). now left.
Qed.

Lemma openUI_first_get (address : string) (g : bool) (gets : list bool)
  (browser : option error) :
  In (EvGet (probeURL address)) (fst (openUI address (g :: gets) browser)).
Proof.
  unfold openUI.
  pose proof (probe_first_get (probeURL address) g gets) as P.
  destruct (probe (probeURL address) (g :: gets)) as [evs reached].
  cbn [fst] in P. destruct reached; cbn [fst]; [|exact P].
  apply in_or_app. now left.
Qed.

(** C10. [OpenUI] hands the buffer the pre-check wrote to, as it is, to the
    pipeline goroutine.  When the pre-check failed with an error that is
    not an environment error, the goroutine waits on that same buffer, and
    the address it passes to [openUI] (and probes) is the trimmed
    concatenation of what the pre-check wrote and of everything the wait
    loop's queries wrote. *)
Theorem shared_buffer_address :
  forall (timeout : Z) (pre : cmdResult) (sel : selected) (e : error)
         (fails : list cmdResult) (ok : cmdResult) (rest : list cmdResult)
         (gets : list bool) (browser : option error),
    failure pre = Some e ->
    environmentError (failure pre) = false ->
    Forall failed fails ->
    failure ok = None ->
    TrimSpace (written pre ++ outputs fails ++ written ok) <> EmptyString ->
    In (EvGoPipeline false (written pre)) (fst (OpenUI timeout pre sel)) /\
    pipeline false (written pre) (fails ++ ok :: rest) gets browser
    = (let address := TrimSpace (written pre ++ outputs fails ++ written ok) in
       let waiting := (failedPolls (List.length fails) ++ [EvRun portArgs])%list in
       match openUI address gets browser with
       | (evs, None) => ((waiting ++ evs)%list, Polling)
       | (evs, Some err) => ((waiting ++ evs ++ [EvSend err])%list, Returned)
       end) /\
    (gets <> [] ->
     In (EvGet (probeURL (TrimSpace (written pre ++ outputs fails ++ written ok))))
        (fst (pipeline false (written pre) (fails ++ ok :: rest) gets browser))).
Proof.
  intros timeout pre sel e fails ok rest gets browser Ep Env F Ok Ne.
  assert (P : pipeline false (written pre) (fails ++ ok :: rest) gets browser
              = (let address := TrimSpace (written pre ++ outputs fails ++ written ok) in
                 let waiting := (failedPolls (List.length fails) ++ [EvRun portArgs])%list in
                 match openUI address gets browser with
                 | (evs, None) => ((waiting ++ evs)%list, Polling)
                 | (evs, Some err) => ((waiting ++ evs ++ [EvSend err])%list, Returned)
                 end)).
  { unfold pipeline.
    rewrite (waitForContainer_first_success fails (written pre) ok rest F Ok).
    apply String.eqb_neq in Ne. rewrite Ne. reflexivity. }
  split; [|split].
  - unfold OpenUI. rewrite checkFailFast_flag, Env, Ep. cbn. auto.
  - exact P.
  - intros G. rewrite P. cbn zeta.
    destruct gets as [|g gets]; [now elim G|].
    pose proof (openUI_first_get
                  (TrimSpace (written pre ++ outputs fails ++ written ok))
                  g gets browser) as I.
    destruct (openUI (TrimSpace (written pre ++ outputs fails ++ written ok))
                (g :: gets) browser) as [evs [err|]];
      cbn [fst] in *; apply in_or_app; right; [apply in_or_app; now left|exact I].
Qed.

Lemma shared_buffer_address_witness :
  TrimSpace (written (mkResult ("ERROR" ++ nl) None)
             ++ outputs [] ++ written (mkResult ("0.0.0.0:8088" ++ nl) None))
  <> TrimSpace (written (mkResult ("0.0.0.0:8088" ++ nl) None)) /\
  In (EvGet ("http://ERROR" ++ nl ++ "127.0.0.1:8088"))
     (fst (pipeline false ("ERROR" ++ nl)
             ([] ++ mkResult ("0.0.0.0:8088" ++ nl) None :: []) [true] None)).
Proof.
  split; [vm_compute; discriminate|].
  apply (shared_buffer_address (2 * Duration.Second)
           (mkResult ("ERROR" ++ nl) (Some (CmdError KindOther "No container found")))
           TimedOut (CmdError KindOther "No container found")
           [] (mkResult ("0.0.0.0:8088" ++ nl) None) [] [true] None).
  - reflexivity.
  - reflexivity.
  - constructor.
  - reflexivity.
  - vm_compute. discriminate.
  - discriminate.
Defined.

(** The scenario of a healthy stack: the pre-check already gave the
    address, the first probe succeeds and the browser opens. *)
Example pipeline_ready_at_once :
  pipeline true ("0.0.0.0:8088" ++ nl) [] [true] None
  = ([EvGet "http://127.0.0.1:8088"; EvOpenURL "http://127.0.0.1:8088";
      EvSend None], Returned).
Proof. vm_compute. reflexivity. Qed.

(** ** Address normalization *)

Lemma prefix_true_append (a s : string) :
  String.prefix a s = true -> exists post, s = a ++ post.
Proof.
  revert s. induction a as [|x a IH]; intros s H.
  - now exists s.
  - destruct s as [|y s]; [discriminate|]. simpl in H.
    destruct (ascii_dec x y) as [->|]; [|discriminate].
    destruct (IH _ H) as (post & ->). now exists post.
Qed.

Lemma replaceFrom_absent (old new : string) (n : nat) (s : string) :
  ~ occursIn old s -> replaceFrom old new n 0 s = s.
Proof.
  induction s as [|a s IH]; intros N; [reflexivity|].
  cbn [replaceFrom]. destruct n as [|n]; [reflexivity|].
  destruct (String.prefix old (String a s)) eqn:P.
  - elim N. destruct (prefix_true_append _ _ P) as (post & ->).
    now exists EmptyString, post.
  - rewrite IH; [reflexivity|].
    intros (pre & post & ->). apply N. now exists (String a pre), post.
Qed.

(** X20. An address in which the text [0.0.0.0] does not occur is only
    given the [http://] prefix. *)
Lemma probeURL_absent (address : string) :
  ~ occursIn "0.0.0.0" address -> probeURL address = "http://" ++ address.
Proof.
  intros N. unfold probeURL, Replace. cbn [String.eqb Ascii.eqb].
  replace ("0.0.0.0" =? "127.0.0.1")%string with false by reflexivity.
  now rewrite replaceFrom_absent.
Qed.

(** An address that starts with the bind-all host gets the loopback host. *)
Lemma probeURL_bind_all (rest : string) :
  probeURL ("0.0.0.0" ++ rest) = "http://127.0.0.1" ++ rest.
Proof.
  unfold probeURL, Replace.
  replace ("0.0.0.0" =? "127.0.0.1")%string with false by reflexivity.
  cbn. now destruct rest.
Qed.

(** C7. [0.0.0.0:8088] is probed at [http://127.0.0.1:8088] and
    [192.168.1.5:8088] at [http://192.168.1.5:8088]; but the replacement is
    of the first occurrence of the text [0.0.0.0], so the host [10.0.0.0],
    which is not the bind-all host, is rewritten as well. *)
Theorem address_normalization :
  probeURL "0.0.0.0:8088" = "http://127.0.0.1:8088" /\
  probeURL "192.168.1.5:8088" = "http://192.168.1.5:8088" /\
  probeURL "10.0.0.0:8088" = "http://1127.0.0.1:8088".
Proof. repeat split; vm_compute; reflexivity. Qed.

(** ** The completion channel *)

Lemma step_after_return (s s' : Chan.sys) :
  Chan.receiving s = false ->
  Chan.step chanCapacity s s' ->
  Chan.receiving s' = false /\ Chan.queue s' = Chan.queue s /\
  exists v, Chan.senders s' = v :: Chan.senders s.
Proof.
  intros R St. inversion St; subst; cbn in *; try discriminate.
  - unfold chanCapacity in *. lia.
  - repeat split; try assumption. now exists v.
Qed.

Lemma sender_stays (s s' : Chan.sys) (v : option error) :
  Chan.receiving s = false ->
  Chan.steps chanCapacity s s' ->
  In v (Chan.senders s) -> In v (Chan.senders s').
Proof.
  intros R St. induction St as [s|s1 s2 s3 S12 _ IH]; [auto|].
  intros I. destruct (step_after_return _ _ R S12) as (R2 & _ & w & L2).
  apply (IH R2). rewrite L2. now right.
Qed.

(** C8 (as the code has it). The completion channel is unbuffered and a
    send on it is a plain blocking send.  Once the orchestrator has left
    its [select], nothing receives any more: in every later state the
    channel is as it was, and every goroutine that was at its send is
    still there, together with those that arrived since. *)
Theorem senders_block_after_return :
  forall (s s' : Chan.sys),
    Chan.receiving s = false ->
    Chan.steps chanCapacity s s' ->
    Chan.receiving s' = false /\
    Chan.queue s' = Chan.queue s /\
    exists later, Chan.senders s' = (later ++ Chan.senders s)%list.
Proof.
  intros s s' R St. induction St as [s|s1 s2 s3 S12 _ IH].
  - split; [exact R|]. split; [reflexivity|]. now exists (@nil (option error)).
  - destruct (step_after_return _ _ R S12) as (R2 & Q2 & v & L2).
    destruct (IH R2) as (R3 & Q3 & later & L3).
    split; [exact R3|]. split; [congruence|].
    exists (later ++ [v])%list. rewrite L3, L2, <- app_assoc. reflexivity.
Qed.

Lemma senders_block_after_return_witness :
  Chan.receiving
    (Chan.mkSys [] false
       [Some (Errorf "service 'gitbase' is in state 'Exit 2'");
        Some (Errorf "service 'bblfshd' is in state 'Exit 1'")]) = false /\
  Chan.queue
    (Chan.mkSys [] false
       [Some (Errorf "service 'gitbase' is in state 'Exit 2'");
        Some (Errorf "service 'bblfshd' is in state 'Exit 1'")])
  = Chan.queue
      (Chan.mkSys [] false [Some (Errorf "service 'bblfshd' is in state 'Exit 1'")]) /\
  exists later,
    Chan.senders
      (Chan.mkSys [] false
         [Some (Errorf "service 'gitbase' is in state 'Exit 2'");
          Some (Errorf "service 'bblfshd' is in state 'Exit 1'")])
    = (later
         ++ Chan.senders
              (Chan.mkSys [] false
                 [Some (Errorf "service 'bblfshd' is in state 'Exit 1'")]))%list.
Proof.
  apply (senders_block_after_return
           (Chan.mkSys [] false [Some (Errorf "service 'bblfshd' is in state 'Exit 1'")])
           (Chan.mkSys [] false
              [Some (Errorf "service 'gitbase' is in state 'Exit 2'");
               Some (Errorf "service 'bblfshd' is in state 'Exit 1'")])).
  - reflexivity.
  - eapply Chan.steps_step; [apply Chan.step_arrive | apply Chan.steps_refl].
Defined.

(** C8, as stated, fails: the channel has capacity 0, less than the one
    sender the pipeline alone is; and when two goroutines are at their send
    and the orchestrator takes the value of the first, the second is at its
    send in every state that follows. *)
Lemma second_sender_blocks_forever :
  chanCapacity = 0 /\
  Chan.step chanCapacity
    (Chan.mkSys [] true
       [Some (Errorf "service 'gitbase' is in state 'Exit 2'");
        Some (Errorf "service 'bblfshd' is in state 'Exit 1'")])
    (Chan.mkSys [] false [Some (Errorf "service 'bblfshd' is in state 'Exit 1'")]) /\
  forall s',
    Chan.steps chanCapacity
      (Chan.mkSys [] false [Some (Errorf "service 'bblfshd' is in state 'Exit 1'")])
      s' ->
    In (Some (Errorf "service 'bblfshd' is in state 'Exit 1'")) (Chan.senders s').
Proof.
  split; [reflexivity|]. split.
  - apply (Chan.step_handoff chanCapacity []
             (Some (Errorf "service 'gitbase' is in state 'Exit 2'"))
             [Some (Errorf "service 'bblfshd' is in state 'Exit 1'")]).
  - intros s' St. eapply sender_stays; [|exact St|now left]. reflexivity.
Qed.

(** * Further properties *)

(** ** The order of the matcher's answers *)

Section Order.

Context {A B : Type}.

Lemma hd_error_In (l : list A) (x : A) : hd_error l = Some x -> In x l.
Proof. destruct l; [discriminate|]. intros E. inversion E. now left. Qed.

Lemma flat_map_nil_in (f : A -> list B) (l : list A) :
  flat_map f l = [] -> forall x, In x l -> f x = [].
Proof.
  induction l as [|a l IH]; intros E x I; [destruct I|].
  simpl in E. apply app_eq_nil in E. destruct E as [E1 E2].
  destruct I as [<-|I]; [exact E1|now apply IH].
Qed.

Lemma hd_flat_map (f : A -> list B) (l : list A) (y : B) :
  hd_error (flat_map f l) = Some y ->
  exists x, In x l /\ hd_error (f x) = Some y.
Proof.
  induction l as [|a l IH]; [discriminate|]. simpl.
  destruct (f a) as [|b l0] eqn:E.
  - intros H. destruct (IH H) as (x & I & Hx). exists x. split; [now right|exact Hx].
  - intros H. exists a. split; [now left|]. now rewrite E.
Qed.

Lemma hd_map_Some (g : A -> B) (l : list A) (y : B) :
  hd_error (map g l) = Some y -> exists x, hd_error l = Some x /\ y = g x.
Proof.
  destruct l as [|a l]; [discriminate|]. intros E. inversion E. now exists a.
Qed.

Lemma hd_app_Some (l1 l2 : list A) (x : A) :
  hd_error (l1 ++ l2) = Some x ->
  hd_error l1 = Some x \/ (l1 = [] /\ hd_error l2 = Some x).
Proof. destruct l1; [now right|now left]. Qed.

End Order.

Lemma flat_map_of_map {A B C : Type} (f : B -> list C) (g : A -> B) (l : list A) :
  flat_map f (map g l) = flat_map (fun x => f (g x)) l.
Proof.
  induction l as [|a l IH]; [reflexivity|]. simpl. now rewrite IH.
Qed.

Lemma allb_app (p : ascii -> bool) (a b : string) :
  allb p (a ++ b) = allb p a && allb p b.
Proof.
  induction a as [|x a IH]; [reflexivity|]. simpl. now rewrite IH, andb_assoc.
Qed.

Lemma append_inv_head (t a b : string) : t ++ a = t ++ b -> a = b.
Proof.
  induction t as [|x t IH]; simpl; intros E; [exact E|].
  inversion E. now apply IH.
Qed.

(** Among the runs of [x*], the first one whose continuation [f] has an
    answer is the longest such run. *)
Lemma star_first {B : Type} (p : ascii -> bool) (s : string) :
  forall (f : string * string -> list B) (y : B),
    hd_error (flat_map f (star p s)) = Some y ->
    exists t s',
      s = t ++ s' /\ allb p t = true /\ hd_error (f (t, s')) = Some y /\
      forall u v, s' = u ++ v -> u <> EmptyString -> allb p u = true ->
                  f (t ++ u, v) = [].
Proof.
  induction s as [|a s1 IH]; intros f y H.
  - simpl in H. rewrite app_nil_r in H.
    exists EmptyString, EmptyString. repeat split; try assumption.
    intros u v E N _. destruct u; [now elim N|discriminate].
  - simpl in H. destruct (p a) eqn:Pa.
    + rewrite flat_map_app, flat_map_of_map in H. simpl in H.
      rewrite app_nil_r in H.
      destruct (flat_map (fun x => f (String a (fst x), snd x)) (star p s1))
        as [|b0 l0] eqn:FM.
      * simpl in H. exists EmptyString, (String a s1).
        repeat split; try assumption.
        intros u v E N Au. destruct u as [|b u']; [now elim N|].
        simpl in E. inversion E; subst. simpl in Au.
        apply andb_true_iff in Au. destruct Au as [_ Au].
        apply (flat_map_nil_in _ _ FM (u', v)). now apply star_complete.
      * destruct (IH (fun x => f (String a (fst x), snd x)) y) as (t1 & s' & -> & At & Hy & M).
        { rewrite FM. exact H. }
        exists (String a t1), s'. simpl. rewrite Pa, At.
        repeat split; assumption.
    + simpl in H. rewrite app_nil_r in H.
      exists EmptyString, (String a s1). repeat split; try assumption.
      intros u v E N Au. destruct u as [|b u']; [now elim N|].
      simpl in E. inversion E; subst. simpl in Au. rewrite Pa in Au. discriminate.
Qed.

Lemma star_hd_maximal (p : ascii -> bool) (s t s' : string) :
  hd_error (star p s) = Some (t, s') -> startsWith p s' = false.
Proof.
  revert t. induction s as [|a s1 IH]; intros t H.
  - simpl in H. inversion H. reflexivity.
  - simpl in H. destruct (p a) eqn:Pa.
    + apply hd_app_Some in H. destruct H as [H|[E _]].
      * apply hd_map_Some in H. destruct H as ([t1 s1'] & H & E).
        inversion E; subst. now apply (IH t1).
      * apply map_eq_nil in E. pose proof (star_nil p s1) as I.
        rewrite E in I. destruct I.
    + inversion H; subst. exact Pa.
Qed.

Lemma run_Alt_eq (r1 r2 : regex) (prev : option ascii) (s : string) :
  run (Alt r1 r2) prev s = (run r1 prev s ++ run r2 prev s)%list.
Proof. reflexivity. Qed.

Lemma run_Star_eq (p : ascii -> bool) (prev : option ascii) (s : string) :
  run (Star p) prev s = map (fun ts => (fst ts, [], snd ts)) (star p s).
Proof. reflexivity. Qed.

Lemma run_Cat_Star_eq (p : ascii -> bool) (r2 : regex) (prev : option ascii)
  (s : string) :
  run (Cat (Star p) r2) prev s
  = flat_map
      (fun x : string * string =>
         map (fun p2 : path =>
                let '(t2, c2, s2) := p2 in (fst x ++ t2, c2, s2))
             (run r2 (last_byte prev (fst x)) (snd x)))
      (star p s).
Proof.
  change (run (Cat (Star p) r2) prev s)
    with (flat_map
            (fun p1 : path =>
               let '(t1, c1, s1) := p1 in
               map (fun p2 : path =>
                      let '(t2, c2, s2) := p2 in (t1 ++ t2, (c1 ++ c2)%list, s2))
                   (run r2 (last_byte prev t1) s1))
            (map (fun ts => (fst ts, [], snd ts)) (star p s))).
  now rewrite flat_map_of_map.
Qed.

Section HeadFacts.

Variables (prev : option ascii) (s : string).

Lemma exec_hd (r : regex) (t : string) (c : captures) :
  exec r prev s = Some (t, c) ->
  exists s', hd_error (run r prev s) = Some (t, c, s').
Proof.
  unfold exec. destruct (run r prev s) as [|[[t0 c0] s0] l]; [discriminate|].
  intros E. inversion E; subst. now exists s0.
Qed.

Lemma hd_run_Cat (r1 r2 : regex) (t : string) (c : captures) (s' : string) :
  hd_error (run (Cat r1 r2) prev s) = Some (t, c, s') ->
  exists t1 c1 s1 t2 c2,
    In (t1, c1, s1) (run r1 prev s) /\
    hd_error (run r2 (last_byte prev t1) s1) = Some (t2, c2, s') /\
    t = t1 ++ t2 /\ c = (c1 ++ c2)%list.
Proof.
  simpl. intros H. apply hd_flat_map in H.
  destruct H as ([[t1 c1] s1] & I & H).
  apply hd_map_Some in H. destruct H as ([[t2 c2] s2] & H & E).
  inversion E; subst. now exists t1, c1, s1, t2, c2.
Qed.

Lemma hd_run_Group (i : nat) (r : regex) (t : string) (c : captures) (s' : string) :
  hd_error (run (Group i r) prev s) = Some (t, c, s') ->
  exists c0, c = (i, t) :: c0 /\ hd_error (run r prev s) = Some (t, c0, s').
Proof.
  simpl. intros H. apply hd_map_Some in H.
  destruct H as ([[t0 c0] s0] & H & E). inversion E; subst. now exists c0.
Qed.

End HeadFacts.

(** ** Which match the pattern takes *)

Local Abbreviation stateGroup :=
  (Group 1 (Alt (str "Up") (Cat (str "Exit ") (Group 2 (Plus isWord))))).

Lemma stateGroup_hd (p0 : option ascii) (s3 st : string) (cg : captures) (s' : string) :
  hd_error (run stateGroup p0 s3) = Some (st, cg, s') ->
  s3 = st ++ s' /\
  ((st = "Up" /\ cg = [(1, "Up"%string)]) \/
   (exists code,
       exitState st code /\ cg = [(1, st); (2, code)] /\
       startsWith isWord s' = false)).
Proof.
  intros H. apply hd_run_Group in H. destruct H as (c0 & -> & H).
  rewrite run_Alt_eq in H. apply hd_app_Some in H. destruct H as [H|[_ H]].
  - apply hd_error_In in H. apply run_str_in in H. destruct H as (-> & -> & ->).
    split; [reflexivity|]. left. now split.
  - apply hd_run_Cat in H.
    destruct H as (te & ce & se & code & cc & H1 & H & -> & ->).
    apply run_str_in in H1. destruct H1 as (-> & -> & ->).
    apply hd_run_Group in H. destruct H as (c1 & -> & H).
    pose proof (hd_error_In _ _ H) as I. apply run_Plus_in in I.
    destruct I as (-> & -> & Nc & Ac).
    unfold Plus in H. apply hd_run_Cat in H.
    destruct H as (ta & ca & sa & tb & cb & H1 & H & E & _).
    apply run_Class_in in H1. destruct H1 as (a & Ea & Pa & -> & ->).
    rewrite run_Star_eq in H. apply hd_map_Some in H.
    destruct H as ([tb' sb'] & H & Eb). inversion Eb; subst tb cb sb'.
    apply star_hd_maximal in H.
    split; [now rewrite append_assoc|]. right. exists code.
    split; [now repeat split|]. split; [reflexivity|exact H].
Qed.

Lemma stateGroup_keyword (p0 : option ascii) (v : string) :
  keywordAt v -> run stateGroup p0 v <> [].
Proof.
  intros K N.
  assert (I : exists x, In x (run stateGroup p0 v)).
  { destruct K as [(rest & ->)|(a & rest & -> & Wa)].
    - exists ("Up"%string, [(1, "Up"%string)], rest).
      apply run_Group_in. exists []. split; [reflexivity|].
      apply run_Alt_in. left. now apply run_str_in.
    - exists ("Exit " ++ String a EmptyString,
              [(1, "Exit " ++ String a EmptyString); (2, String a EmptyString)],
              rest).
      apply run_Group_in. exists [(2, String a EmptyString)].
      split; [reflexivity|]. apply run_Alt_in. right. apply run_Cat_in.
      exists "Exit "%string, [], (String a rest), (String a EmptyString),
        [(2, String a EmptyString)].
      split; [now apply run_str_in|]. split; [|now split].
      apply run_Group_in. exists []. split; [reflexivity|].
      apply run_Plus_in. repeat split; [discriminate|].
      simpl. now rewrite Wa. }
  destruct I as (x & I). rewrite N in I. destruct I.
Qed.

(** The match taken: after the name, the longest text before a keyword. *)
Lemma stateExtractor_hd (prev : option ascii) (s t : string) (c : captures)
  (s' : string) :
  hd_error (run stateExtractor prev s) = Some (t, c, s') ->
  exists name mid st s3 p3,
    t = "srcd-" ++ name ++ mid ++ st /\
    hd_error (run stateGroup (last_byte p3 mid) s3) = Some (st, c, s') /\
    forall u v, s3 = u ++ v -> u <> EmptyString -> allb isDot u = true ->
                run stateGroup (last_byte p3 (mid ++ u)) v = [].
Proof.
  unfold stateExtractor. intros H.
  apply hd_run_Cat in H.
  destruct H as (ta & ca & sa & ta' & ca' & H1 & H & -> & ->).
  apply run_Bol_in in H1. destruct H1 as (_ & -> & -> & ->).
  apply hd_run_Cat in H.
  destruct H as (tb & cb & sb & tb' & cb' & H1 & H & -> & ->).
  apply run_str_in in H1. destruct H1 as (-> & -> & ->).
  apply hd_run_Cat in H.
  destruct H as (name & cc & sc & tc' & cc' & H1 & H & -> & ->).
  apply run_Plus_in in H1. destruct H1 as (-> & -> & _ & _).
  rewrite run_Cat_Star_eq in H.
  apply star_first in H.
  destruct H as (mid & s3 & -> & _ & H & M).
  cbn [fst snd] in H. apply hd_map_Some in H.
  destruct H as ([[st cg] s0] & H & E). inversion E; subst.
  exists name, mid, st, s3, (last_byte (last_byte (last_byte prev "") "srcd-") name).
  split; [reflexivity|]. split; [exact H|].
  intros u v Eu Nu Au. specialize (M u v Eu Nu Au).
  cbn [fst snd] in M. now apply map_eq_nil in M.
Qed.

(** X1. The state captured is the last one on its line: in the rest of
    the line after a match, neither [Up] nor [Exit ] followed by a word
    character occurs any more. *)
Theorem last_keyword_decides :
  forall (prev : option ascii) (s t : string) (c : captures)
         (rest u v : string),
    exec stateExtractor prev s = Some (t, c) ->
    s = t ++ rest ->
    rest = u ++ v ->
    allb isDot u = true ->
    ~ keywordAt v.
Proof.
  intros prev s t c rest u v E Es Er Au K. subst rest.
  apply exec_hd in E. destruct E as (s' & H).
  pose proof (hd_error_In _ _ H) as I. apply stateExtractor_in in I.
  destruct I as (_ & Es' & _).
  assert (Er : s' = u ++ v) by (apply (append_inv_head t); congruence).
  apply stateExtractor_hd in H.
  destruct H as (name & mid & st & s3 & p3 & Et & H & M).
  apply stateGroup_hd in H. destruct H as (E3 & Sh).
  apply (stateGroup_keyword (last_byte p3 (mid ++ st ++ u)) v K).
  apply M.
  - rewrite E3, Er. now rewrite append_assoc.
  - destruct Sh as [(-> & _)|(code & (-> & _) & _)]; discriminate.
  - rewrite allb_app, Au, andb_true_r.
    destruct Sh as [(-> & _)|(code & (-> & _ & Ac) & _)]; [reflexivity|].
    simpl. clear - Ac. induction code as [|a code IH]; [reflexivity|].
    simpl in *. apply andb_true_iff in Ac. destruct Ac as [Wa Ac].
    rewrite (IH Ac), andb_true_r.
    unfold isDot. destruct (Ascii.eqb_spec a newline) as [->|]; [discriminate|reflexivity].
Qed.

Lemma last_keyword_decides_witness :
  ~ keywordAt "0.0.0.0:80->80/tcp".
Proof.
  apply (last_keyword_decides None
           "srcd-x_ghsync_1   Exit 0   0.0.0.0:80->80/tcp"
           "srcd-x_ghsync_1   Exit 0" [(1, "Exit 0"%string); (2, "0"%string)]
           "   0.0.0.0:80->80/tcp" "   " "0.0.0.0:80->80/tcp").
  - vm_compute. reflexivity.
  - reflexivity.
  - reflexivity.
  - reflexivity.
Defined.

(** X2. When the state captured is an exit state, it is [Exit ] followed by
    the exit code captured, and the code is the whole token: the text
    after the match does not go on with a word character. *)
Theorem exit_code_is_whole_token :
  forall (prev : option ascii) (s t : string) (c : captures) (rest : string),
    exec stateExtractor prev s = Some (t, c) ->
    s = t ++ rest ->
    HasPrefix (group 1 c) "Exit" = true ->
    (group 1 c = ("Exit " ++ (group 2 c))%string) /\
    (group 2 c <> EmptyString) /\
    (startsWith isWord rest = false).
Proof.
  intros prev s t c rest E Es P.
  apply exec_hd in E. destruct E as (s' & H).
  pose proof (hd_error_In _ _ H) as I. apply stateExtractor_in in I.
  destruct I as (_ & Es' & _).
  assert (Er : rest = s') by (apply (append_inv_head t); congruence).
  subst rest.
  apply stateExtractor_hd in H.
  destruct H as (name & mid & st & s3 & p3 & Et & H & _).
  apply stateGroup_hd in H. destruct H as (_ & [(-> & ->)|(code & (-> & Nc & _) & -> & Sw)]).
  - discriminate.
  - cbn [group Nat.eqb]. now repeat split.
Qed.

Lemma exit_code_is_whole_token_witness :
  (group 1 [(1, "Exit 137"%string); (2, "137"%string)]
   = ("Exit " ++ (group 2 [(1, "Exit 137"%string); (2, "137"%string)]))%string) /\
  (group 2 [(1, "Exit 137"%string); (2, "137"%string)] <> EmptyString) /\
  (startsWith isWord "   0.0.0.0:80->80/tcp" = false).
Proof.
  apply (exit_code_is_whole_token None
           "srcd-x_bblfshd_1   Exit 137   0.0.0.0:80->80/tcp"
           "srcd-x_bblfshd_1   Exit 137"
           [(1, "Exit 137"%string); (2, "137"%string)]
           "   0.0.0.0:80->80/tcp").
  - vm_compute. reflexivity.
  - reflexivity.
  - reflexivity.
Defined.

(** ** Where the matches lie *)

Lemma isWord_isDot (a : ascii) : isWord a = true -> isDot a = true.
Proof.
  intros W. unfold isDot.
  destruct (Ascii.eqb_spec a newline) as [->|]; [discriminate|reflexivity].
Qed.

Lemma allb_isWord_isDot (w : string) : allb isWord w = true -> allb isDot w = true.
Proof.
  induction w as [|a w IH]; [reflexivity|]. simpl. intros A.
  apply andb_true_iff in A. destruct A as [Wa A].
  now rewrite (isWord_isDot a Wa), (IH A).
Qed.

Lemma at_bol_last_byte (pre : string) :
  forall prev,
    at_bol (last_byte prev pre) = true ->
    (pre = EmptyString /\ at_bol prev = true) \/
    exists pre', pre = pre' ++ String newline EmptyString.
Proof.
  induction pre as [|a pre IH]; intros prev H; [now left|].
  right. cbn [last_byte] in H. destruct (IH _ H) as [(-> & B)|(pre' & ->)].
  - exists EmptyString. simpl in B. apply Ascii.eqb_eq in B. now subst.
  - now exists (String a pre').
Qed.

(** Every submatch of a scan comes from a match at some position of the
    input, seen with the byte before that position. *)
Lemma scan_in (r : regex) (n : nat) (s : string) :
  forall (skip : nat) (prev : option ascii) (m : list string),
    In m (scan r n skip prev s) ->
    exists pre u t c,
      s = pre ++ u /\ exec r (last_byte prev pre) u = Some (t, c) /\
      m = submatch n t c.
Proof.
  induction s as [|a s IH]; intros skip prev m I.
  - destruct skip; [|destruct I]. cbn [scan] in I.
    destruct (exec r prev "") as [[t c]|] eqn:E; [|destruct I].
    destruct I as [<-|[]]. now exists EmptyString, EmptyString, t, c.
  - destruct skip as [|k]; cbn [scan] in I.
    + destruct (exec r prev (String a s)) as [[t c]|] eqn:E.
      * destruct I as [<-|I].
        -- now exists EmptyString, (String a s), t, c.
        -- destruct (IH _ _ _ I) as (pre & u & t' & c' & -> & E' & ->).
           now exists (String a pre), u, t', c'.
      * destruct (IH _ _ _ I) as (pre & u & t' & c' & -> & E' & ->).
        now exists (String a pre), u, t', c'.
    + destruct (IH _ _ _ I) as (pre & u & t' & c' & -> & E' & ->).
      now exists (String a pre), u, t', c'.
Qed.

(** X3. Every match found in a status text starts at the beginning of a
    line of the text, stays on that line, begins with [srcd-] and ends
    with the state captured. *)
Theorem matches_lie_on_one_line :
  forall (s : string) (m : list string),
    In m (FindAllStates s) ->
    exists pre t state code post,
      s = pre ++ t ++ post /\
      m = [t; state; code] /\
      (pre = EmptyString \/ exists pre', pre = pre' ++ String newline EmptyString) /\
      allb isDot t = true /\
      exists name mid,
        t = "srcd-" ++ name ++ mid ++ state /\ name <> EmptyString.
Proof.
  intros s m I. apply scan_in in I.
  destruct I as (pre & u & t & c & -> & E & ->).
  apply exec_Some_in in E. destruct E as (post & H).
  apply stateExtractor_in in H.
  destruct H as (B & -> & name & mid & state & code & -> & Nn & An & Am & H).
  exists pre, ("srcd-" ++ name ++ mid ++ state), state, code, post.
  split; [reflexivity|]. split.
  { destruct H as [(-> & -> & ->)|(_ & ->)]; reflexivity. }
  split.
  { destruct (at_bol_last_byte pre None B) as [(-> & _)|X]; [now left|now right]. }
  split.
  { cbn [append allb isDot]. rewrite !allb_app, (allb_isWord_isDot _ An), Am.
    destruct H as [(-> & _)|((-> & _ & Ac) & _)]; [reflexivity|].
    cbn. now rewrite (allb_isWord_isDot _ Ac). }
  now exists name, mid.
Qed.

Lemma matches_lie_on_one_line_witness :
  exists pre t state code post,
    ("NAME   STATE" ++ nl ++ "srcd-x_gitbase_1   Up   3306/tcp") = pre ++ t ++ post /\
    ["srcd-x_gitbase_1   Up"; "Up"; ""] = [t; state; code] /\
    (pre = EmptyString \/ exists pre', pre = pre' ++ String newline EmptyString) /\
    allb isDot t = true /\
    exists name mid,
      t = "srcd-" ++ name ++ mid ++ state /\ name <> EmptyString.
Proof.
  apply (matches_lie_on_one_line
           ("NAME   STATE" ++ nl ++ "srcd-x_gitbase_1   Up   3306/tcp")
           ["srcd-x_gitbase_1   Up"; "Up"; ""]).
  vm_compute. left. reflexivity.
Defined.

(** ** The monitor, turn after turn *)

(** X4. Whatever the answers to its status queries, the monitor never
    panics and sends at most once: either it is still polling, after one
    query and one sleep of a second per answer, or it has returned after
    some such turns, a last query and exactly one send, which is its last
    effect. *)
Theorem monitor_trace :
  forall (service : string) (answers : list cmdResult),
    runMonitorService service answers
    = (quietTurns service (List.length answers), Polling) \/
    exists n e,
      n < List.length answers /\
      runMonitorService service answers
      = ((quietTurns service n
            ++ [EvRun ["ps"; service]; EvSend (Some e)])%list, Returned).
Proof.
  intros service answers. induction answers as [|r answers IH]; [now left|].
  cbn [runMonitorService]. destruct (failure r) as [err|].
  - right. exists 0. eexists. split; [cbn; lia|reflexivity].
  - destruct (checkMatches service (FindAllStates (TrimSpace (written r)))) eqn:C.
    + destruct IH as [->|(n & e & L & ->)].
      * now left.
      * right. exists (S n), e. split; [cbn; lia|reflexivity].
    + right. exists 0, e. split; [cbn; lia|reflexivity].
    + exfalso. revert C. apply checkMatches_no_panic, FindAllStates_matchShape.
Qed.

Lemma checkMatches_done_iff (service : string) (ms : list (list string)) :
  Forall matchShape ms ->
  (checkMatches service ms = RangeDone <-> Forall (passes service) ms).
Proof.
  induction 1 as [|m ms Hm _ IH]; [split; [constructor|reflexivity]|].
  destruct (matchShape_state m Hm) as [U|(code & X)].
  - rewrite (checkMatches_up _ _ _ U), IH. split.
    + intros F. constructor; [now left|exact F].
    + intros F. now inversion F.
  - rewrite (checkMatches_exit _ _ _ _ X). split.
    + destruct (allowListed service) eqn:A; [|discriminate].
      destruct (neqb code "0") eqn:N; [discriminate|].
      apply neqb_false in N. subst code. intros D.
      constructor; [right; now split | now apply IH].
    + intros F. inversion F as [|? ? [U|[A Z]] F']; subst.
      * rewrite X in U. discriminate.
      * rewrite X in Z. inversion Z; subst. rewrite A. cbn. now apply IH.
Qed.

(** X5. After a status query that succeeds, the monitor goes on (query,
    sleep of one second, next turn, nothing sent) exactly when every
    matched line is [Up], or is [Exit 0] and the service is ghsync or
    gitcollector. *)
Theorem monitor_continues_iff :
  forall (service : string) (r : cmdResult) (answers : list cmdResult),
    failure r = None ->
    (Forall (passes service) (FindAllStates (TrimSpace (written r))) <->
     runMonitorService service (r :: answers)
     = (EvRun ["ps"; service] :: EvSleep Duration.Second
          :: fst (runMonitorService service answers),
        snd (runMonitorService service answers))).
Proof.
  intros service r answers Ok.
  rewrite <- (checkMatches_done_iff service _ (FindAllStates_matchShape _)).
  cbn [runMonitorService]. rewrite Ok.
  destruct (checkMatches service (FindAllStates (TrimSpace (written r)))).
  - split; [intros _|reflexivity].
    now destruct (runMonitorService service answers).
  - split; discriminate.
  - split; discriminate.
Qed.

Lemma monitor_continues_iff_witness :
  Forall (passes "bblfshd")
    (FindAllStates
       (TrimSpace (written (mkResult ("srcd-x_bblfshd_1   bblfshd   Up" ++ nl) None))))
  <->
  runMonitorService "bblfshd"
    [mkResult ("srcd-x_bblfshd_1   bblfshd   Up" ++ nl) None]
  = (EvRun ["ps"; "bblfshd"] :: EvSleep Duration.Second
       :: fst (runMonitorService "bblfshd" []),
     snd (runMonitorService "bblfshd" [])).
Proof.
  apply (monitor_continues_iff "bblfshd"
           (mkResult ("srcd-x_bblfshd_1   bblfshd   Up" ++ nl) None) []).
  reflexivity.
Defined.

Lemma checkMatches_return_form (service : string) (ms : list (list string)) (e : error) :
  Forall matchShape ms ->
  checkMatches service ms = RangeReturn e ->
  exists code,
    code <> EmptyString /\ allb isWord code = true /\
    ((allowListed service = false /\
      e = Errorf ("service '" ++ service ++ "' is in state '"
                    ++ ("Exit " ++ code) ++ "'")) \/
     (allowListed service = true /\ code <> "0" /\
      e = Errorf ("service '" ++ service ++ "' exited with return code: " ++ code))).
Proof.
  induction 1 as [|m ms Hm _ IH]; [discriminate|].
  destruct Hm as (t & state & code & -> & [(-> & _)|(-> & Nc & Ac)]).
  - rewrite (checkMatches_up service [t; "Up"; code] ms eq_refl). exact IH.
  - rewrite (checkMatches_exit service [t; "Exit " ++ code; code] ms code eq_refl).
    destruct (allowListed service) eqn:A.
    + destruct (neqb code "0") eqn:N; [|exact IH].
      intros E. inversion E; subst. exists code.
      split; [exact Nc|]. split; [exact Ac|]. right.
      split; [reflexivity|]. split; [now apply neqb_true|reflexivity].
    + intros E. inversion E; subst. exists code.
      split; [exact Nc|]. split; [exact Ac|]. left. now split.
Qed.

(** X6. When a turn of the monitor ends with an error after a status
    query that succeeded, the error is about an exit: for a service other
    than ghsync and gitcollector it reads
    [service '<name>' is in state 'Exit <code>'], for those two
    [service '<name>' exited with return code: <code>] with a code other
    than [0].  No other state is ever reported. *)
Theorem monitor_error_is_an_exit :
  forall (service : string) (r : cmdResult) (answers : list cmdResult) (e : error),
    failure r = None ->
    runMonitorService service (r :: answers)
    = ([EvRun ["ps"; service]; EvSend (Some e)], Returned) ->
    exists code,
      code <> EmptyString /\ allb isWord code = true /\
      ((allowListed service = false /\
        Error e = "service '" ++ service ++ "' is in state 'Exit " ++ code ++ "'") \/
       (allowListed service = true /\ code <> "0" /\
        Error e = "service '" ++ service ++ "' exited with return code: " ++ code)).
Proof.
  intros service r answers e Ok R.
  cbn [runMonitorService] in R. rewrite Ok in R.
  destruct (checkMatches service (FindAllStates (TrimSpace (written r)))) as [|e'|] eqn:C.
  - destruct (runMonitorService service answers). discriminate.
  - inversion R; subst e'.
    destruct (checkMatches_return_form _ _ _ (FindAllStates_matchShape _) C)
      as (code & Nc & Ac & [(A & ->)|(A & N & ->)]);
      exists code; (split; [exact Nc|]); (split; [exact Ac|]).
    + left. now split.
    + right. now repeat split.
  - discriminate.
Qed.

Lemma monitor_error_is_an_exit_witness :
  exists code,
    code <> EmptyString /\ allb isWord code = true /\
    ((allowListed "gitbase" = false /\
      Error (Errorf "service 'gitbase' is in state 'Exit 1'")
      = "service '" ++ "gitbase" ++ "' is in state 'Exit " ++ code ++ "'") \/
     (allowListed "gitbase" = true /\ code <> "0" /\
      Error (Errorf "service 'gitbase' is in state 'Exit 1'")
      = "service '" ++ "gitbase" ++ "' exited with return code: " ++ code)).
Proof.
  apply (monitor_error_is_an_exit "gitbase"
           (mkResult ("srcd-x_gitbase_1   gitbase   Exit 1" ++ nl) None) []
           (Errorf "service 'gitbase' is in state 'Exit 1'")).
  - reflexivity.
  - vm_compute. reflexivity.
Defined.

(** ** Trimming keeps a piece of the text *)

Lemma TrimLeftSpace_suffix_upto (n : nat) :
  forall s, String.length s <= n -> exists pre, s = pre ++ TrimLeftSpace s.
Proof.
  induction n as [|n IH]; intros s L.
  - destruct s; [now exists EmptyString|simpl in L; lia].
  - destruct s as [|a s1]; [now exists EmptyString|].
    cbn [TrimLeftSpace]. simpl in L.
    destruct (isSpace1 a).
    { destruct (IH s1) as (pre & E); [lia|].
      exists (String a pre). simpl. now rewrite <- E. }
    destruct s1 as [|b s2]; [now exists EmptyString|]. simpl in L.
    destruct (isSpace2 a b).
    { destruct (IH s2) as (pre & E); [lia|].
      exists (String a (String b pre)). simpl. now rewrite <- E. }
    destruct s2 as [|c s3]; [now exists EmptyString|]. simpl in L.
    destruct (isSpace3 a b c); [|now exists EmptyString].
    destruct (IH s3) as (pre & E); [lia|].
    exists (String a (String b (String c pre))). simpl. now rewrite <- E.
Qed.

Lemma TrimLeftSpaceRev_suffix_upto (n : nat) :
  forall s, String.length s <= n -> exists pre, s = pre ++ TrimLeftSpaceRev s.
Proof.
  induction n as [|n IH]; intros s L.
  - destruct s; [now exists EmptyString|simpl in L; lia].
  - destruct s as [|a s1]; [now exists EmptyString|].
    cbn [TrimLeftSpaceRev]. simpl in L.
    destruct (isSpace1 a).
    { destruct (IH s1) as (pre & E); [lia|].
      exists (String a pre). simpl. now rewrite <- E. }
    destruct s1 as [|b s2]; [now exists EmptyString|]. simpl in L.
    destruct (isSpace2 b a).
    { destruct (IH s2) as (pre & E); [lia|].
      exists (String a (String b pre)). simpl. now rewrite <- E. }
    destruct s2 as [|c s3]; [now exists EmptyString|]. simpl in L.
    destruct (isSpace3 c b a); [|now exists EmptyString].
    destruct (IH s3) as (pre & E); [lia|].
    exists (String a (String b (String c pre))). simpl. now rewrite <- E.
Qed.

Lemma rev_string_app (a b : string) :
  rev_string (a ++ b) = rev_string b ++ rev_string a.
Proof.
  induction a as [|x a IH]; simpl.
  - now rewrite append_nil_r.
  - now rewrite IH, append_assoc.
Qed.

Lemma rev_string_involutive (s : string) : rev_string (rev_string s) = s.
Proof.
  induction s as [|x s IH]; [reflexivity|].
  simpl. now rewrite rev_string_app, IH.
Qed.

(** What [strings.TrimSpace] returns is a piece of its argument. *)
Lemma TrimSpace_occursIn (s : string) : occursIn (TrimSpace s) s.
Proof.
  unfold TrimSpace, TrimRightSpace.
  destruct (TrimLeftSpace_suffix_upto _ s (le_n _)) as (pre & E).
  destruct (TrimLeftSpaceRev_suffix_upto _ (rev_string (TrimLeftSpace s)) (le_n _))
    as (post & E').
  exists pre, (rev_string post).
  rewrite <- rev_string_app, <- E', rev_string_involutive. exact E.
Qed.

Lemma occursIn_trans (a b c : string) : occursIn a b -> occursIn b c -> occursIn a c.
Proof.
  intros (p1 & q1 & ->) (p2 & q2 & ->).
  exists (p2 ++ p1), (q1 ++ q2). now rewrite !append_assoc.
Qed.

Lemma FindAllStates_none (s : string) :
  ~ occursIn "srcd-" s -> FindAllStates s = [].
Proof.
  intros N. destruct (FindAllStates s) as [|m ms] eqn:E; [reflexivity|].
  exfalso. apply N.
  assert (I : In m (FindAllStates s)) by (rewrite E; now left).
  apply scan_in in I. destruct I as (pre & u & t & c & -> & X & _).
  apply exec_Some_in in X. destruct X as (post & H).
  apply stateExtractor_in in H.
  destruct H as (_ & -> & name & mid & state & code & -> & _).
  exists pre, (name ++ mid ++ state ++ post).
  now rewrite !append_assoc.
Qed.

(** X7. A status text in which [srcd-] does not occur (an empty or
    unrelated output) has no match: whatever the service, the monitor sends
    nothing, sleeps a second and polls again. *)
Theorem unmatched_status_continues :
  forall (service : string) (r : cmdResult) (answers : list cmdResult),
    failure r = None ->
    ~ occursIn "srcd-" (written r) ->
    FindAllStates (TrimSpace (written r)) = [] /\
    runMonitorService service (r :: answers)
    = (EvRun ["ps"; service] :: EvSleep Duration.Second
         :: fst (runMonitorService service answers),
       snd (runMonitorService service answers)).
Proof.
  intros service r answers Ok N.
  assert (E : FindAllStates (TrimSpace (written r)) = []).
  { apply FindAllStates_none. intros O. apply N.
    exact (occursIn_trans _ _ _ O (TrimSpace_occursIn _)). }
  split; [exact E|].
  cbn [runMonitorService]. rewrite Ok, E. cbn [checkMatches].
  now destruct (runMonitorService service answers).
Qed.

Lemma unmatched_status_continues_witness :
  FindAllStates (TrimSpace (written (mkResult ("Name   Command   State   Ports" ++ nl) None))) = [] /\
  runMonitorService "gitbase"
    [mkResult ("Name   Command   State   Ports" ++ nl) None]
  = (EvRun ["ps"; "gitbase"] :: EvSleep Duration.Second
       :: fst (runMonitorService "gitbase" []),
     snd (runMonitorService "gitbase" [])).
Proof.
  apply (unmatched_status_continues "gitbase"
           (mkResult ("Name   Command   State   Ports" ++ nl) None) []).
  - reflexivity.
  - intros O. apply occursIn_Contains in O. vm_compute in O. discriminate.
Defined.

(** ** The address pipeline, step by step *)

(** X8. While the port query keeps failing, [waitForContainer] never
    returns: there is no limit on the attempts, each one followed by a
    sleep of a second. *)
Theorem waitForContainer_waits_on_failures :
  forall (stdout : string) (answers : list cmdResult),
    Forall failed answers ->
    waitForContainer stdout answers = (failedPolls (List.length answers), None).
Proof.
  intros stdout answers F. revert stdout.
  induction F as [|r answers Fr _ IH]; intros stdout; [reflexivity|].
  cbn [waitForContainer]. destruct (failure r) eqn:E; [|now elim Fr].
  now rewrite IH.
Qed.

Lemma waitForContainer_waits_on_failures_witness :
  waitForContainer EmptyString
    [mkResult "" (Some (CmdError KindOther "No container found"));
     mkResult "" (Some (CmdError KindOther "No container found"))]
  = (failedPolls 2, None).
Proof.
  apply (waitForContainer_waits_on_failures EmptyString
           [mkResult "" (Some (CmdError KindOther "No container found"));
            mkResult "" (Some (CmdError KindOther "No container found"))]).
  repeat constructor; discriminate.
Defined.

Lemma probe_unanswered (url : string) (n : nat) :
  probe url (repeat false n) = (failedProbes url n, false).
Proof.
  induction n as [|n IH]; [reflexivity|].
  cbn [repeat probe]. now rewrite IH.
Qed.

Lemma probe_answered (url : string) (n : nat) (rest : list bool) :
  probe url (repeat false n ++ true :: rest)
  = ((failedProbes url n ++ [EvGet url])%list, true).
Proof.
  induction n as [|n IH]; [reflexivity|].
  cbn [repeat app probe]. now rewrite IH.
Qed.

(** X9. [openUI] probes the normalized URL once a second; the browser is
    opened once, on the URL probed, right after the first probe that gets
    an answer, and the result is [nil] or the browser's error wrapped as
    [could not open the browser: ...].  As long as no probe is answered
    the browser is not opened and [openUI] does not return. *)
Theorem openUI_opens_after_first_answer :
  forall (address : string) (n : nat) (rest : list bool) (browser : option error),
    openUI address (repeat false n ++ true :: rest) browser
    = ((failedProbes (probeURL address) n
          ++ [EvGet (probeURL address); EvOpenURL (probeURL address)])%list,
       Some match browser with
            | Some err => Some (Wrap err "could not open the browser")
            | None => None
            end) /\
    (forall err, Error (Wrap err "could not open the browser")
                 = "could not open the browser: " ++ Error err) /\
    openUI address (repeat false n) browser
    = (failedProbes (probeURL address) n, None).
Proof.
  intros address n rest browser. unfold openUI.
  rewrite probe_answered, probe_unanswered, <- app_assoc. now repeat split.
Qed.

Lemma sends_app (l1 l2 : list event) : sends (l1 ++ l2) = sends l1 + sends l2.
Proof. unfold sends. now rewrite filter_app, length_app. Qed.

Lemma waitForContainer_events (answers : list cmdResult) :
  forall stdout ev,
    In ev (fst (waitForContainer stdout answers)) ->
    ev = EvRun portArgs \/ ev = EvSleep Duration.Second.
Proof.
  induction answers as [|r answers IH]; intros stdout ev I; [destruct I|].
  cbn [waitForContainer] in I. destruct (failure r).
  - specialize (IH (stdout ++ written r) ev).
    destruct (waitForContainer (stdout ++ written r) answers) as [evs res].
    destruct I as [<-|[<-|I]]; [now left|now right|now apply IH].
  - destruct I as [<-|[]]. now left.
Qed.

Lemma probe_events (url : string) (gets : list bool) :
  forall ev, In ev (fst (probe url gets)) ->
             ev = EvGet url \/ ev = EvSleep Duration.Second.
Proof.
  induction gets as [|g gets IH]; intros ev I; [destruct I|].
  cbn [probe] in I. destruct g.
  - destruct I as [<-|[]]. now left.
  - destruct (probe url gets) as [evs reached].
    destruct I as [<-|[<-|I]]; [now left|now right|now apply IH].
Qed.

Lemma sends_none (evs : list event) :
  (forall ev, In ev evs -> isSend ev = false) -> sends evs = 0.
Proof.
  unfold sends. induction evs as [|ev evs IH]; intros H; [reflexivity|].
  simpl. rewrite (H ev (or_introl eq_refl)). apply IH.
  intros ev' I. apply H. now right.
Qed.

Lemma sends_waitForContainer (stdout : string) (answers : list cmdResult) :
  sends (fst (waitForContainer stdout answers)) = 0.
Proof.
  apply sends_none. intros ev I.
  destruct (waitForContainer_events _ _ _ I) as [->| ->]; reflexivity.
Qed.

Lemma sends_probe (url : string) (gets : list bool) :
  sends (fst (probe url gets)) = 0.
Proof.
  apply sends_none. intros ev I.
  destruct (probe_events _ _ _ I) as [->| ->]; reflexivity.
Qed.

(** The three ways the pipeline goroutine can go. *)
Lemma pipeline_cases (containerReady : bool) (stdout : string)
  (ports : list cmdResult) (gets : list bool) (browser : option error) :
  exists evs1,
    (forall ev, In ev evs1 -> ev = EvRun portArgs \/ ev = EvSleep Duration.Second) /\
    (pipeline containerReady stdout ports gets browser = (evs1, Polling) \/
     exists out,
       (TrimSpace out = EmptyString /\
        pipeline containerReady stdout ports gets browser
        = ((evs1 ++ [EvSend (Some addressNotFound)])%list, Returned)) \/
       (TrimSpace out <> EmptyString /\
        pipeline containerReady stdout ports gets browser
        = match openUI (TrimSpace out) gets browser with
          | (evs2, None) => ((evs1 ++ evs2)%list, Polling)
          | (evs2, Some err) => ((evs1 ++ evs2 ++ [EvSend err])%list, Returned)
          end)).
Proof.
  unfold pipeline. destruct containerReady.
  - exists []. split; [intros ev []|]. right. exists stdout.
    destruct (String.eqb_spec (TrimSpace stdout) ""); [now left|now right].
  - pose proof (waitForContainer_events ports stdout) as W.
    destruct (waitForContainer stdout ports) as [evs1 [[out rest]|]];
      exists evs1; (split; [exact W|]); [|now left].
    right. exists out.
    destruct (String.eqb_spec (TrimSpace out) ""); [now left|now right].
Qed.

(** X10. The pipeline goroutine never panics and sends at most once on the
    channel: while it is polling or probing it has sent nothing, and when
    it returns its last effect is its one send. *)
Theorem pipeline_sends_once :
  forall (containerReady : bool) (stdout : string) (ports : list cmdResult)
         (gets : list bool) (browser : option error),
    (snd (pipeline containerReady stdout ports gets browser) = Polling /\
     sends (fst (pipeline containerReady stdout ports gets browser)) = 0) \/
    (snd (pipeline containerReady stdout ports gets browser) = Returned /\
     exists evs e,
       fst (pipeline containerReady stdout ports gets browser)
       = (evs ++ [EvSend e])%list /\
       sends evs = 0).
Proof.
  intros containerReady stdout ports gets browser.
  destruct (pipeline_cases containerReady stdout ports gets browser)
    as (evs1 & W & [E|(out & [(T & E)|(T & E)])]); rewrite E; clear E.
  - left. split; [reflexivity|]. apply sends_none. intros ev I.
    destruct (W _ I) as [->| ->]; reflexivity.
  - right. split; [reflexivity|]. exists evs1, (Some addressNotFound).
    split; [reflexivity|]. apply sends_none. intros ev I.
    destruct (W _ I) as [->| ->]; reflexivity.
  - assert (S1 : sends evs1 = 0).
    { apply sends_none. intros ev I. destruct (W _ I) as [->| ->]; reflexivity. }
    unfold openUI.
    pose proof (sends_probe (probeURL (TrimSpace out)) gets) as S2.
    destruct (probe (probeURL (TrimSpace out)) gets) as [evs2 reached].
    cbn [fst] in S2. destruct reached.
    + right. split; [reflexivity|].
      exists (evs1 ++ evs2 ++ [EvOpenURL (probeURL (TrimSpace out))])%list.
      eexists. split; [cbn [fst]; now rewrite <- !app_assoc|].
      now rewrite !sends_app, S1, S2.
    + left. split; [reflexivity|]. cbn [fst]. now rewrite sends_app, S1, S2.
Qed.

(** X11. When the pre-check already gave the address ([containerReady]),
    the pipeline goroutine runs no port query at all, and what the port
    query would answer plays no part. *)
Theorem pipeline_ready_skips_discovery :
  forall (stdout : string) (ports : list cmdResult) (gets : list bool)
         (browser : option error),
    (forall ev,
        In ev (fst (pipeline true stdout ports gets browser)) -> isRun ev = false) /\
    pipeline true stdout ports gets browser = pipeline true stdout [] gets browser.
Proof.
  intros stdout ports gets browser. split; [|reflexivity].
  intros ev. unfold pipeline.
  destruct (TrimSpace stdout =? "")%string.
  - intros [<-|[]]. reflexivity.
  - unfold openUI.
    pose proof (probe_events (probeURL (TrimSpace stdout)) gets) as P.
    destruct (probe (probeURL (TrimSpace stdout)) gets) as [evs reached].
    cbn [fst] in P. destruct reached; cbn [fst app]; intros I.
    + apply in_app_or in I. destruct I as [I|[<-|[]]]; [|reflexivity].
      apply in_app_or in I. destruct I as [I|[<-|[]]]; [|reflexivity].
      destruct (P _ I) as [->| ->]; reflexivity.
    + destruct (P _ I) as [->| ->]; reflexivity.
Qed.

(** X12. A monitor only ever sends errors: the [nil] that makes [OpenUI]
    succeed cannot come from a service monitor. *)
Theorem monitor_sends_only_errors :
  forall (service : string) (answers : list cmdResult) (e : option error),
    In (EvSend e) (fst (runMonitorService service answers)) ->
    exists err, e = Some err.
Proof.
  intros service answers e. induction answers as [|r answers IH]; [intros []|].
  cbn [runMonitorService]. destruct (failure r) as [err|].
  - cbn [fst]. intros [I|[I|[]]]; [discriminate|]. inversion I. now eexists.
  - destruct (checkMatches service (FindAllStates (TrimSpace (written r)))).
    + destruct (runMonitorService service answers) as [evs st]. cbn [fst] in *.
      intros [I|[I|I]]; [discriminate|discriminate|now apply IH].
    + cbn [fst]. intros [I|[I|[]]]; [discriminate|]. inversion I. now eexists.
    + cbn [fst]. intros [I|[]]. discriminate.
Qed.

Lemma monitor_sends_only_errors_witness :
  exists err, Some (Errorf "service 'gitbase' is in state 'Exit 1'") = Some err.
Proof.
  apply (monitor_sends_only_errors "gitbase"
           [mkResult ("srcd-x_gitbase_1   gitbase   Exit 1" ++ nl) None]
           (Some (Errorf "service 'gitbase' is in state 'Exit 1'"))).
  vm_compute. right. left. reflexivity.
Defined.

Lemma probe_reached_get (url : string) (gets : list bool) :
  snd (probe url gets) = true -> In (EvGet url) (fst (probe url gets)).
Proof.
  destruct gets as [|g gets]; [discriminate|]. intros _. apply probe_first_get.
Qed.

Lemma probe_reached_last (url : string) (gets : list bool) :
  snd (probe url gets) = true ->
  exists before, fst (probe url gets) = (before ++ [EvGet url])%list.
Proof.
  induction gets as [|g gets IH]; [discriminate|].
  cbn [probe]. destruct g.
  - intros _. now exists [].
  - destruct (probe url gets) as [evs reached]. cbn [fst snd] in *.
    intros R. destruct (IH R) as (before & ->).
    now exists (EvGet url :: EvSleep Duration.Second :: before).
Qed.

(** X13. The pipeline sends [nil] only after a probe of the URL was
    answered and the browser was then opened on that URL without error:
    when a [nil] is sent, the pipeline has returned and its last three
    effects are, in this order, the probe of the URL, the opening of the
    browser on the same URL, and the send. *)
Theorem pipeline_success_means_browser_opened :
  forall (containerReady : bool) (stdout : string) (ports : list cmdResult)
         (gets : list bool) (browser : option error),
    In (EvSend None) (fst (pipeline containerReady stdout ports gets browser)) ->
    browser = None /\
    snd (pipeline containerReady stdout ports gets browser) = Returned /\
    exists address before,
      fst (pipeline containerReady stdout ports gets browser)
      = (before ++ [EvGet (probeURL address); EvOpenURL (probeURL address);
                    EvSend None])%list /\
      sends before = 0.
Proof.
  intros containerReady stdout ports gets browser.
  destruct (pipeline_cases containerReady stdout ports gets browser)
    as (evs1 & W & [E|(out & [(T & E)|(T & E)])]); rewrite E; clear E;
    cbn [fst].
  - intros I. destruct (W _ I); discriminate.
  - intros I. apply in_app_or in I.
    destruct I as [I|[I|[]]]; [destruct (W _ I)|]; discriminate.
  - assert (S1 : sends evs1 = 0).
    { apply sends_none. intros ev I. destruct (W _ I) as [->| ->]; reflexivity. }
    unfold openUI.
    pose proof (probe_events (probeURL (TrimSpace out)) gets) as P.
    pose proof (probe_reached_last (probeURL (TrimSpace out)) gets) as G.
    pose proof (sends_probe (probeURL (TrimSpace out)) gets) as S2.
    destruct (probe (probeURL (TrimSpace out)) gets) as [evs2 reached].
    cbn [fst snd] in P, G, S2. destruct reached; cbn [fst snd]; intros I.
    + apply in_app_or in I. destruct I as [I|I]; [destruct (W _ I); discriminate|].
      apply in_app_or in I. destruct I as [I|[I|[]]].
      { apply in_app_or in I. destruct I as [I|[I|[]]];
          [destruct (P _ I)|]; discriminate. }
      destruct browser; [discriminate|]. split; [reflexivity|].
      split; [reflexivity|].
      destruct (G eq_refl) as (before & E2). subst evs2.
      exists (TrimSpace out), (evs1 ++ before)%list. split.
      * rewrite <- !app_assoc. reflexivity.
      * rewrite sends_app in S2. rewrite sends_app, S1. cbn in S2. lia.
    + apply in_app_or in I.
      destruct I as [I|I]; [destruct (W _ I)|destruct (P _ I)]; discriminate.
Qed.

Lemma pipeline_success_means_browser_opened_witness :
  @None error = None /\
  snd (pipeline false EmptyString
         [mkResult "" (Some (CmdError KindOther "No container found"));
          mkResult ("0.0.0.0:8088" ++ nl) None]
         [false; true] None) = Returned /\
  exists address before,
    fst (pipeline false EmptyString
           [mkResult "" (Some (CmdError KindOther "No container found"));
            mkResult ("0.0.0.0:8088" ++ nl) None]
           [false; true] None)
    = (before ++ [EvGet (probeURL address); EvOpenURL (probeURL address);
                  EvSend None])%list /\
    sends before = 0.
Proof.
  apply (pipeline_success_means_browser_opened false EmptyString
           [mkResult "" (Some (CmdError KindOther "No container found"));
            mkResult ("0.0.0.0:8088" ++ nl) None]
           [false; true] None).
  vm_compute. do 7 right. left. reflexivity.
Defined.

(** X14. [OpenUI] returns [nil] only when a [nil] was received from the
    channel: never on the fail-fast path and never on a timeout. *)
Theorem OpenUI_succeeds_only_on_received_nil :
  forall (timeout : Z) (pre : cmdResult) (sel : selected),
    snd (OpenUI timeout pre sel) = None ->
    environmentError (failure pre) = false /\ sel = Received None.
Proof.
  intros timeout pre sel. unfold OpenUI. rewrite checkFailFast_flag.
  destruct (environmentError (failure pre)) eqn:Env; cbn [snd].
  - intros N. rewrite N in Env. discriminate.
  - intros N. split; [reflexivity|].
    destruct sel as [e|]; [now subst|discriminate].
Qed.

Lemma OpenUI_succeeds_only_on_received_nil_witness :
  environmentError (failure (mkResult ("0.0.0.0:8088" ++ nl) None)) = false /\
  Received None = Received None.
Proof.
  apply (OpenUI_succeeds_only_on_received_nil (2 * Duration.Second)
           (mkResult ("0.0.0.0:8088" ++ nl) None) (Received None)).
  reflexivity.
Defined.

(** ** Service discovery *)

Lemma splitOn_nonempty (sep : ascii) (s : string) :
  forall cur, splitOn sep cur s <> [].
Proof.
  induction s as [|a s IH]; intros cur; simpl; [discriminate|].
  destruct (Ascii.eqb a sep); [discriminate|apply IH].
Qed.

Lemma concat_cons (sep x : string) (l : list string) :
  l <> [] -> String.concat sep (x :: l) = x ++ sep ++ String.concat sep l.
Proof. destruct l; [intros N; now elim N|reflexivity]. Qed.

Lemma splitOn_join (s : string) :
  forall cur,
    String.concat (String newline EmptyString) (splitOn newline cur s)
    = rev_string cur ++ s.
Proof.
  induction s as [|a s IH]; intros cur.
  - simpl. now rewrite append_nil_r.
  - cbn [splitOn]. destruct (Ascii.eqb_spec a newline) as [->|N].
    + rewrite concat_cons by apply splitOn_nonempty. now rewrite IH.
    + rewrite IH. simpl. now rewrite append_assoc.
Qed.

Lemma allb_rev_string (p : ascii -> bool) (s : string) :
  allb p (rev_string s) = allb p s.
Proof.
  induction s as [|a s IH]; [reflexivity|].
  simpl. rewrite allb_app, IH. simpl. rewrite andb_true_r. apply andb_comm.
Qed.

Lemma splitOn_lines (s : string) :
  forall cur,
    allb isDot cur = true ->
    Forall (fun line => allb isDot line = true) (splitOn newline cur s).
Proof.
  induction s as [|a s IH]; intros cur A.
  - constructor; [now rewrite allb_rev_string|constructor].
  - cbn [splitOn]. destruct (Ascii.eqb a newline) eqn:E.
    + constructor; [now rewrite allb_rev_string|now apply IH].
    + apply IH. simpl. unfold isDot at 1. now rewrite E, A.
Qed.

(** X15. The discovery goroutine runs [config --services] once.  If the
    query fails it sends [cannot get list of services: ...] and starts no
    monitor.  Otherwise it sends nothing and starts one monitor for each
    line of the trimmed output, in order: the names joined by newlines are
    that output, and no name contains a newline.  There is always at least
    one monitor: for an empty output it is the monitor of the service with
    the empty name. *)
Theorem runMonitor_starts_one_monitor_per_line :
  forall (r : cmdResult),
    (forall err,
        failure r = Some err ->
        runMonitor r
        = ([EvRun ["config"; "--services"];
            EvSend (Some (Wrap err "cannot get list of services"))], Returned) /\
        Error (Wrap err "cannot get list of services")
        = "cannot get list of services: " ++ Error err) /\
    (failure r = None ->
     exists services,
       runMonitor r
       = (EvRun ["config"; "--services"] :: map EvGoService services, Returned) /\
       services <> [] /\
       String.concat nl services = TrimSpace (written r) /\
       Forall (fun service => allb isDot service = true) services /\
       (TrimSpace (written r) = EmptyString -> services = [EmptyString])).
Proof.
  intros r. split.
  - intros err E. unfold runMonitor. rewrite E. now split.
  - intros E. unfold runMonitor. rewrite E.
    exists (splitOn newline EmptyString (TrimSpace (written r))).
    split; [reflexivity|]. split; [apply splitOn_nonempty|].
    split; [apply (splitOn_join _ EmptyString)|].
    split; [now apply splitOn_lines|].
    intros ->. reflexivity.
Qed.

Lemma runMonitor_starts_one_monitor_per_line_witness :
  exists services,
    runMonitor (mkResult ("bblfshd" ++ nl ++ "gitbase" ++ nl ++ "sourced-ui" ++ nl) None)
    = (EvRun ["config"; "--services"] :: map EvGoService services, Returned) /\
    services <> [] /\
    String.concat nl services
    = TrimSpace (written (mkResult ("bblfshd" ++ nl ++ "gitbase" ++ nl ++ "sourced-ui" ++ nl) None)) /\
    Forall (fun service => allb isDot service = true) services /\
    (TrimSpace (written (mkResult ("bblfshd" ++ nl ++ "gitbase" ++ nl ++ "sourced-ui" ++ nl) None))
     = EmptyString -> services = [EmptyString]).
Proof.
  apply (runMonitor_starts_one_monitor_per_line
           (mkResult ("bblfshd" ++ nl ++ "gitbase" ++ nl ++ "sourced-ui" ++ nl) None)).
  reflexivity.
Defined.

(** ** The command *)

(** X16. The [web] command never shows the progress indicator: its timeout
    of two seconds is below the threshold of five.  When it times out its
    error reads [... the container is not running after 2s]. *)
Theorem Execute_has_no_spinner :
  forall (pre : cmdResult) (sel : selected),
    (forall ev,
        In ev (fst (Execute pre sel)) ->
        isSpinnerStart ev = false /\ isSpinnerStop ev = false) /\
    (environmentError (failure pre) = false ->
     snd (Execute pre TimedOut)
     = Some (Errorf "error opening the UI, the container is not running after 2s")).
Proof.
  intros pre sel. unfold Execute, OpenUI. rewrite checkFailFast_flag.
  destruct (environmentError (failure pre)).
  - split; [|discriminate]. intros ev [<-|[]]. now split.
  - split; [|reflexivity]. cbn [fst].
    replace (5 * Duration.Second <? 2 * Duration.Second)%Z with false by reflexivity.
    cbn [app]. intros ev I.
    repeat (destruct I as [<-|I]; [now split|]). destruct I.
Qed.

Lemma Execute_has_no_spinner_witness :
  snd (Execute (mkResult "" (Some (CmdError KindOther "No container found"))) TimedOut)
  = Some (Errorf "error opening the UI, the container is not running after 2s").
Proof.
  apply (Execute_has_no_spinner
           (mkResult "" (Some (CmdError KindOther "No container found"))) TimedOut).
  reflexivity.
Defined.

(** ** The progress indicator *)

Section SpinnerFacts.

Import Spinner.

Variables (windows : bool) (s : spinner).

Hypothesis charset_nonempty : charset s <> [].

Local Abbreviation len := (List.length (charset s)).

Lemma len_pos : 0 < len.
Proof.
  destruct (charset s); [now elim charset_nonempty|simpl; lia].
Qed.

Lemma next_index (b : nat) :
  (if len =? b mod len + 1 then 0 else b mod len + 1) = S b mod len.
Proof.
  pose proof len_pos as P.
  pose proof (Nat.mod_upper_bound b len ltac:(lia)) as U.
  pose proof (Nat.div_mod_eq b len) as D.
  destruct (Nat.eqb_spec len (b mod len + 1)) as [E|N].
  - apply (Nat.mod_unique (S b) len (b / len + 1) 0); [lia|nia].
  - apply (Nat.mod_unique (S b) len (b / len) (b mod len + 1)); lia.
Qed.

Lemma printLoop_step (i : nat) (stops : list bool) (r : Z) :
  nth_error (charset s) (i mod len) = Some r ->
  printLoop windows s i (false :: stops)
  = (Printf (frame windows (msg s) r) :: Sleep (interval s)
       :: fst (printLoop windows s (if len =? i + 1 then 0 else i + 1) stops),
     snd (printLoop windows s (if len =? i + 1 then 0 else i + 1) stops)).
Proof.
  intros E. cbn [printLoop]. revert E.
  destruct (List.length (charset s)) as [|l] eqn:L; intros E.
  - destruct (charset s); [now elim charset_nonempty|discriminate].
  - rewrite E.
    now destruct (printLoop windows s (if S l =? i + 1 then 0 else i + 1) stops).
Qed.

(** The frames printed from the turn number [b] on, for [n] turns. *)
Lemma printLoop_frames (n : nat) (tail : list bool) :
  forall b,
    printLoop windows s (b mod len) (repeat false n ++ tail)
    = ((flat_map
          (fun k => [Printf (frame windows (msg s) (nth (k mod len) (charset s) 0%Z));
                     Sleep (interval s)])
          (seq b n)
          ++ fst (printLoop windows s ((b + n) mod len) tail))%list,
       snd (printLoop windows s ((b + n) mod len) tail)).
Proof.
  pose proof len_pos as P.
  induction n as [|n IH]; intros b.
  - cbn [repeat app seq flat_map]. rewrite Nat.add_0_r.
    now destruct (printLoop windows s (b mod len) tail).
  - cbn [repeat app].
    rewrite (printLoop_step _ _ (nth (b mod len) (charset s) 0%Z)).
    + rewrite next_index, IH. cbn [fst snd seq flat_map app].
      now replace (S b + n) with (b + S n) by lia.
    + rewrite Nat.Div0.mod_mod. apply nth_error_nth'.
      apply Nat.mod_upper_bound. lia.
Qed.

End SpinnerFacts.

(** X17. The progress indicator started by [startSpinner] never panics:
    until the stop arrives it prints one frame every 200ms, the [k]-th
    frame showing the character number [k mod len] of its set (ten
    characters, four on Windows), and when the stop arrives it prints the
    message on a line of its own and returns. *)
Theorem spinner_cycles_through_frames :
  forall (windows : bool) (m : string) (n : nat) (rest : list bool),
    let s := Spinner.startSpinner windows m in
    let len := List.length (Spinner.charset s) in
    let frames :=
      flat_map
        (fun k =>
           [Spinner.Printf
              (Spinner.frame windows m (nth (k mod len) (Spinner.charset s) 0%Z));
            Spinner.Sleep (200 * Duration.Millisecond)%Z])
        (seq 0 n) in
    len = (if windows then 4 else 10) /\
    Spinner.printLoop windows s 0 (repeat false n ++ true :: rest)
    = ((frames ++ [Spinner.Println m])%list, Returned) /\
    Spinner.printLoop windows s 0 (repeat false n) = (frames, Polling).
Proof.
  intros windows m n rest s len frames.
  assert (N : Spinner.charset s <> []) by (destruct windows; discriminate).
  assert (Z0 : 0 = 0 mod List.length (Spinner.charset s))
    by (destruct windows; reflexivity).
  split; [now destruct windows|]. split.
  - rewrite Z0 at 1. rewrite (printLoop_frames windows s N n (true :: rest) 0).
    reflexivity.
  - rewrite <- (app_nil_r (repeat false n)). rewrite Z0 at 1.
    rewrite (printLoop_frames windows s N n [] 0).
    cbn [Spinner.printLoop fst snd]. now rewrite app_nil_r.
Qed.

(** ** The timeout error, for every timeout *)

Section NoName.

Lemma digit_noO (v : Z) : noO (Duration.digit (v mod 10)) = true.
Proof.
  pose proof (Z.mod_pos_bound v 10 ltac:(lia)) as B.
  assert (C : (v mod 10 = 0 \/ v mod 10 = 1 \/ v mod 10 = 2 \/ v mod 10 = 3 \/
               v mod 10 = 4 \/ v mod 10 = 5 \/ v mod 10 = 6 \/ v mod 10 = 7 \/
               v mod 10 = 8 \/ v mod 10 = 9)%Z) by lia.
  repeat (destruct C as [->|C]; [reflexivity|]). now rewrite C.
Qed.

Lemma fmtFrac_noO (prec : nat) :
  forall print buf v,
    allb noO buf = true -> allb noO (fst (Duration.fmtFrac prec print buf v)) = true.
Proof.
  induction prec as [|prec IH]; intros print buf v A.
  - cbn [Duration.fmtFrac fst]. destruct print; [cbn [allb]|]; exact A.
  - cbn [Duration.fmtFrac]. apply IH.
    destruct (print || negb (v mod 10 =? 0)%Z); [|exact A].
    cbn [allb]. now rewrite digit_noO, A.
Qed.

Lemma fmtIntLoop_noO (fuel : nat) :
  forall buf v, allb noO buf = true -> allb noO (Duration.fmtIntLoop fuel buf v) = true.
Proof.
  induction fuel as [|fuel IH]; intros buf v A; [exact A|].
  cbn [Duration.fmtIntLoop]. destruct (0 <? v)%Z; [|exact A].
  apply IH. cbn [allb]. now rewrite digit_noO, A.
Qed.

Lemma fmtInt_noO (buf : string) (v : Z) :
  allb noO buf = true -> allb noO (Duration.fmtInt buf v) = true.
Proof.
  intros A. unfold Duration.fmtInt. destruct (v =? 0)%Z.
  - cbn [allb]. exact A.
  - now apply fmtIntLoop_noO.
Qed.

Lemma fmtFrac_fmtInt_noO (prec : nat) (buf : string) (v : Z) :
  allb noO buf = true ->
  allb noO (let '(b, w) := Duration.fmtFrac prec false buf v in Duration.fmtInt b w)
  = true.
Proof.
  intros A. pose proof (fmtFrac_noO prec false buf v A) as F.
  destruct (Duration.fmtFrac prec false buf v) as [b w]. now apply fmtInt_noO.
Qed.

Lemma String_noO (d : Z) : allb noO (Duration.String d) = true.
Proof.
  unfold Duration.String.
  assert (B : allb noO
                (if (Z.abs d <? Duration.Second)%Z then
                   if (Z.abs d =? 0)%Z then "0s"%string
                   else if (Z.abs d <? Duration.Microsecond)%Z then
                     let '(b, v) := Duration.fmtFrac 0 false "ns" (Z.abs d) in
                     Duration.fmtInt b v
                   else if (Z.abs d <? Duration.Millisecond)%Z then
                     let '(b, v) :=
                       Duration.fmtFrac 3 false (bytes [194; 181] ++ "s") (Z.abs d) in
                     Duration.fmtInt b v
                   else
                     let '(b, v) := Duration.fmtFrac 6 false "ms" (Z.abs d) in
                     Duration.fmtInt b v
                 else
                   let '(b, v) := Duration.fmtFrac 9 false "s" (Z.abs d) in
                   let b0 := Duration.fmtInt b (v mod 60) in
                   let v0 := (v / 60)%Z in
                   if (0 <? v0)%Z then
                     let b1 := Duration.fmtInt (String "m" b0) (v0 mod 60) in
                     let v1 := (v0 / 60)%Z in
                     if (0 <? v1)%Z then Duration.fmtInt (String "h" b1) v1 else b1
                   else b0) = true).
  { destruct (Z.abs d <? Duration.Second)%Z.
    - destruct (Z.abs d =? 0)%Z; [reflexivity|].
      destruct (Z.abs d <? Duration.Microsecond)%Z;
        [now apply fmtFrac_fmtInt_noO|].
      destruct (Z.abs d <? Duration.Millisecond)%Z;
        now apply fmtFrac_fmtInt_noO.
    - pose proof (fmtFrac_noO 9 false "s" (Z.abs d) eq_refl) as F.
      destruct (Duration.fmtFrac 9 false "s" (Z.abs d)) as [b v].
      cbn [fst] in F. cbn zeta.
      assert (A0 : allb noO (Duration.fmtInt b (v mod 60)) = true)
        by now apply fmtInt_noO.
      destruct (0 <? v / 60)%Z; [|exact A0].
      assert (A1 : allb noO
                     (Duration.fmtInt (String "m" (Duration.fmtInt b (v mod 60)))
                        ((v / 60) mod 60)) = true)
        by (apply fmtInt_noO; cbn [allb]; exact A0).
      destruct (0 <? v / 60 / 60)%Z; [|exact A1].
      apply fmtInt_noO. cbn [allb]. exact A1. }
  destruct (d <? 0)%Z; [cbn [allb]|]; exact B.
Qed.

Lemma Contains_noO (D : string) :
  allb noO D = true -> Contains D "sourced-ui" = false.
Proof.
  induction D as [|a D IH]; [reflexivity|]. intros A.
  cbn [allb] in A. apply andb_true_iff in A. destruct A as [_ A].
  change (Contains (String a D) "sourced-ui")
    with (String.prefix "sourced-ui" (String a D) || Contains D "sourced-ui").
  rewrite (IH A), orb_false_r.
  change (String.prefix "sourced-ui" (String a D))
    with (if ascii_dec "s" a then String.prefix "ourced-ui" D else false).
  destruct (ascii_dec "s" a); [|reflexivity].
  destruct D as [|b D]; [reflexivity|].
  change (String.prefix "ourced-ui" (String b D))
    with (if ascii_dec "o" b then String.prefix "urced-ui" D else false).
  destruct (ascii_dec "o" b) as [<-|]; [|reflexivity].
  cbn [allb] in A. apply andb_true_iff in A. destruct A as [A _].
  vm_compute in A. discriminate.
Qed.

Lemma timeout_message_Contains (D : string) :
  allb noO D = true ->
  Contains ("error opening the UI, the container is not running after " ++ D)
    "sourced-ui" = false.
Proof.
  intros A. pose proof (Contains_noO D A) as C.
  cbn. exact C.
Qed.

End NoName.

(** X18. Whatever the timeout, the timeout error of [OpenUI] does not
    contain the container name [sourced-ui]. *)
Theorem timeout_error_never_names_container :
  forall (timeout : Z),
    ~ occursIn containerName (Error (timeoutError timeout)).
Proof.
  intros timeout O. apply occursIn_Contains in O.
  unfold containerName in O. cbn [Error timeoutError] in O.
  rewrite timeout_message_Contains in O; [discriminate|].
  apply String_noO.
Qed.

(** ** The pre-check that succeeds *)

(** X19. When the pre-check port query succeeds, [OpenUI] starts the
    pipeline as ready, on the buffer holding the pre-check's output.  If
    that output is empty once trimmed, the pipeline's only effect is to
    send [could not find the public port of sourced-ui]: it never polls.
    Otherwise it probes the URL made from the trimmed output. *)
Theorem precheck_success_path :
  forall (timeout : Z) (pre : cmdResult) (sel : selected)
         (ports : list cmdResult) (gets : list bool) (browser : option error),
    failure pre = None ->
    In (EvGoPipeline true (written pre)) (fst (OpenUI timeout pre sel)) /\
    (TrimSpace (written pre) = EmptyString ->
     pipeline true (written pre) ports gets browser
     = ([EvSend (Some addressNotFound)], Returned)) /\
    (TrimSpace (written pre) <> EmptyString ->
     gets <> [] ->
     In (EvGet (probeURL (TrimSpace (written pre))))
        (fst (pipeline true (written pre) ports gets browser))).
Proof.
  intros timeout pre sel ports gets browser Ok. split; [|split].
  - unfold OpenUI. rewrite checkFailFast_flag, Ok. cbn. auto.
  - intros T. unfold pipeline. now rewrite T.
  - intros T G. unfold pipeline. apply String.eqb_neq in T. rewrite T.
    destruct gets as [|g gets]; [now elim G|].
    pose proof (openUI_first_get (TrimSpace (written pre)) g gets browser) as I.
    destruct (openUI (TrimSpace (written pre)) (g :: gets) browser)
      as [evs [err|]]; cbn [fst app] in *; [|exact I].
    apply in_or_app. now left.
Qed.

Lemma precheck_success_path_witness :
  pipeline true (written (mkResult nl None)) [mkResult "0.0.0.0:8088" None] [true] None
  = ([EvSend (Some addressNotFound)], Returned).
Proof.
  apply (precheck_success_path (2 * Duration.Second) (mkResult nl None)
           (Received None) [mkResult "0.0.0.0:8088" None] [true] None).
  - reflexivity.
  - vm_compute. reflexivity.
Defined.

(** ** Address normalization, in general *)

Lemma prefix_noZero (a : ascii) (s : string) :
  noZero a = true -> String.prefix "0.0.0.0" (String a s) = false.
Proof.
  intros N.
  change (String.prefix "0.0.0.0" (String a s))
    with (if ascii_dec "0" a then String.prefix ".0.0.0" s else false).
  destruct (ascii_dec "0" a) as [<-|]; [discriminate|reflexivity].
Qed.

(** X21. Only the first [0.0.0.0] is replaced: in an address with no digit
    [0] before its first [0.0.0.0], that occurrence becomes [127.0.0.1]
    and everything after it, further occurrences included, stays. *)
Theorem first_bind_all_is_replaced :
  forall (pre post : string),
    allb noZero pre = true ->
    probeURL (pre ++ "0.0.0.0" ++ post) = "http://" ++ pre ++ "127.0.0.1" ++ post.
Proof.
  intros pre post A. unfold probeURL, Replace.
  replace ("0.0.0.0" =? "127.0.0.1")%string with false by reflexivity.
  f_equal. induction pre as [|a pre IH].
  - cbn. now destruct post.
  - cbn [allb] in A. apply andb_true_iff in A. destruct A as [Na A].
    cbn [append replaceFrom]. rewrite (prefix_noZero _ _ Na). f_equal.
    exact (IH A).
Qed.

Lemma first_bind_all_is_replaced_witness :
  probeURL ("" ++ "0.0.0.0" ++ ":8088->0.0.0.0:80")
  = "http://" ++ "" ++ "127.0.0.1" ++ ":8088->0.0.0.0:80".
Proof.
  apply (first_bind_all_is_replaced "" ":8088->0.0.0.0:80").
  reflexivity.
Defined.

Lemma probeURL_absent_witness :
  probeURL "192.168.1.5:8088" = "http://" ++ "192.168.1.5:8088".
Proof.
  apply (probeURL_absent "192.168.1.5:8088").
  intros O. apply occursIn_Contains in O. vm_compute in O. discriminate.
Defined.

Lemma timeout_error_never_names_container_witness :
  ~ occursIn containerName (Error (timeoutError (90 * Duration.Second))).
Proof.
  apply (timeout_error_never_names_container (90 * Duration.Second)).
Defined.

Lemma pipeline_ready_skips_discovery_witness :
  (forall ev,
      In ev (fst (pipeline true ("0.0.0.0:8088" ++ nl)
                    [mkResult "" (Some (CmdError KindOther "No container found"))]
                    [false; true] None)) ->
      isRun ev = false) /\
  pipeline true ("0.0.0.0:8088" ++ nl)
    [mkResult "" (Some (CmdError KindOther "No container found"))]
    [false; true] None
  = pipeline true ("0.0.0.0:8088" ++ nl) [] [false; true] None.
Proof.
  apply (pipeline_ready_skips_discovery ("0.0.0.0:8088" ++ nl)
           [mkResult "" (Some (CmdError KindOther "No container found"))]
           [false; true] None).
Defined.
